(** * LiveCheck application (faust/livecheck/app.py)

    A shallow embedding of the [LiveCheck] application class: the case
    registry ([cases], [add_case]), case-name resolution
    ([_prepare_case_name]), the [case] decorator with its signal index
    assignment, the produce hook that stamps test headers on outgoing
    messages, report publication, the two agent loops
    ([_populate_signals], [_execute_tests]), the stream sensor
    ([LiveCheckSensor]) and the construction of a LiveCheck application
    for an existing application ([for_app], [__init__],
    [_contribute_to_app]).

    Conventions.
    - A Python [str] is a [string]; [name.startswith(p)] and [name[8:]] are
      written out below.  The only prefix ever tested is pure ASCII, so the
      first eight code points of a matching name are its first eight bytes.
    - [dict] used as a map is a [gmap]; a list is a [list].
    - Objects that are mutated and shared (the [Signal] instances bound to
      class attributes) live in a heap addressed by [loc].
    - A computation that may raise returns an [outcome]; code that also
      mutates ambient state is a function [W -> outcome A * W]. *)

From Stdlib Require Import ZArith Ascii String List Lia.
From stdpp Require Import gmap strings list fin_maps.

Open Scope string_scope.

(** ** Exceptions *)

(** The exception classes that reach this module.  [LiveCheckError] stands
    for the class of that name and its subclasses (what
    [except LiveCheckError] matches); [OtherException] is any other class
    raised by a collaborator. *)
Inductive exn : Type :=
  | RuntimeError (msg : string)
  | TypeError (msg : string)
  | KeyError (key : string)
  | LiveCheckError (detail : string)
  | OtherException (cls : string).

(** [isinstance(e, LiveCheckError)]. *)
Definition is_LiveCheckError (e : exn) : bool :=
  match e with
  | LiveCheckError _ => true
  | _ => false
  end.

Inductive outcome (A : Type) : Type :=
  | Ok (a : A)
  | Raise (e : exn).
Arguments Ok {A} a.
Arguments Raise {A} e.

(** The error vocabulary of the design document (section 7), which names
    errors by role and not by Python class.  This is the reading used to
    compare its statements with the exceptions raised here: a missing
    origin or a missing header list is a configuration error, a failed
    registry lookup an unknown case, a [LiveCheckError] a test failure. *)
Inductive error_role : Type :=
  | ConfigurationError
  | UnknownCase
  | TestFailure
  | Unclassified.

Definition role_of (e : exn) : error_role :=
  match e with
  | RuntimeError _ => ConfigurationError
  | TypeError _ => ConfigurationError
  | KeyError _ => UnknownCase
  | LiveCheckError _ => TestFailure
  | OtherException _ => Unclassified
  end.

(** ** Strings *)

(** [s.startswith(p)]. *)
Fixpoint startswith (p s : string) : bool :=
  match p with
  | EmptyString => true
  | String a p' =>
      match s with
      | EmptyString => false
      | String b s' => if Ascii.eqb a b then startswith p' s' else false
      end
  end.

(** [c not in s]. *)
Fixpoint lacks (c : ascii) (s : string) : bool :=
  match s with
  | EmptyString => true
  | String a s' => negb (Ascii.eqb a c) && lacks c s'
  end.

(** [s[n:]]. *)
Fixpoint slice_from (n : nat) (s : string) : string :=
  match n with
  | O => s
  | S n' =>
      match s with
      | EmptyString => EmptyString
      | String _ s' => slice_from n' s'
      end
  end.

(** Truth value of an optional string: [None] and [''] are falsy. *)
Definition str_truthy (o : option string) : bool :=
  match o with
  | None => false
  | Some EmptyString => false
  | Some (String _ _) => true
  end.

(** [a or b] on optional strings, with [b] a string. *)
Definition str_or (a : option string) (b : string) : string :=
  match a with
  | Some (String c s) => String c s
  | _ => b
  end.

(** ** Name resolution *)

(** [LiveCheck._prepare_case_name], as a function of [self.conf.origin];
    [not self.conf.origin] holds for [None] and for the empty string. *)
Definition _prepare_case_name (origin : option string) (name : string)
  : outcome string :=
  if startswith "__main__." name then
    match origin with
    | Some (String c o) => Ok (String c o ++ slice_from 8 name)
    | _ => Raise (RuntimeError "LiveCheck app missing origin argument")
    end
  else Ok name.

(** ** Data model *)

(** Heap addresses. *)
Abbreviation loc := nat.

(** A signal object: the [name] and [index] attributes set by
    [Signal(name=..., index=...)] and by [signal.index = ...]. *)
Record Signal : Type := mkSignal {
  sig_name : string;
  sig_index : Z;
}.

(** [signal.index = v]. *)
Definition set_index (v : Z) (s : Signal) : Signal :=
  {| sig_name := sig_name s; sig_index := v |}.

(** A value of the [Seconds] union; floats are carried as their bit
    pattern, they are only passed along here. *)
Inductive seconds : Type :=
  | Timedelta (microseconds : Z)
  | SecondsFloat (bits : Z)
  | SecondsStr (s : string).

Definition pyfloat := Z.

(** Keyword arguments of [LiveCheck.case] that are handed to the case
    constructor as they are. *)
Record CaseOptions : Type := {
  probability : option pyfloat;
  warn_stalled_after : seconds;
  active : option bool;
  test_expires : option seconds;
  frequency : option seconds;
  max_history : option Z;
  max_consecutive_failures : option Z;
  url_timeout_total : option pyfloat;
  url_timeout_connect : option pyfloat;
  url_error_retries : option pyfloat;
  url_error_delay_min : option pyfloat;
  url_error_delay_backoff : option pyfloat;
  url_error_delay_max : option pyfloat;
}.

(** A case instance, [case_cls(app=self, name=..., signals=..., ...)]:
    the attributes of its class (signal-typed attributes bound to a value
    other than [None]), and the constructor arguments. *)
Record Case : Type := mkCase {
  case_cls_attrs : gmap string loc;
  case_name : string;
  case_signals : list loc;
  case_options : CaseOptions;
}.

(** Modelled from the spec: the records of models.py, which this module
    imports ([TestExecution], [SignalEvent], [TestReport]); fields as the
    data model of the design document lists them.  Timestamps and
    durations are opaque numbers. *)
Record TestExecution : Type := mkTestExecution {
  test_id : string;
  test_case_name : string;
  test_timestamp : Z;
  test_expires_at : Z;
}.

Record SignalEvent : Type := mkSignalEvent {
  event_test_id : string;
  event_case_name : string;
  event_signal_name : string;
  event_key : string;
  event_value : string;
  event_timestamp : Z;
}.

Record TestReport : Type := mkTestReport {
  report_test : option TestExecution;
  report_passed : bool;
  report_signal_latency : list (string * Z);
  report_runtime : Z;
}.

(** [test.case_name = v] and [event.case_name = v]. *)
Definition set_test_case_name (v : string) (t : TestExecution)
  : TestExecution :=
  {| test_id := test_id t; test_case_name := v;
     test_timestamp := test_timestamp t;
     test_expires_at := test_expires_at t |}.

Definition set_event_case_name (v : string) (e : SignalEvent)
  : SignalEvent :=
  {| event_test_id := event_test_id e; event_case_name := v;
     event_signal_name := event_signal_name e; event_key := event_key e;
     event_value := event_value e; event_timestamp := event_timestamp e |}.

(** The application object: the attributes of [LiveCheck] this module
    reads or writes.  [reports] is the content of the report topic, one
    entry per message sent, oldest first. *)
Record LiveCheck : Type := mkLiveCheck {
  conf_origin : option string;
  bus_concurrency : Z;
  test_concurrency : Z;
  send_reports : bool;
  test_topic_name : string;
  bus_topic_name : string;
  report_topic_name : string;
  cases : gmap string Case;
  reports : list (option string * TestReport);
}.

(** [x if arg is None else arg], the override pattern of [__init__]. *)
Definition override {A : Type} (arg : option A) (default : A) : A :=
  match arg with
  | Some v => v
  | None => default
  end.

(** [LiveCheck.__init__]: class-level defaults, overridden by the keyword
    arguments that are not [None]; empty registry. *)
Definition __init__ (origin : option string)
    (test_topic bus_topic report_topic : option string)
    (bus_conc test_conc : option Z) (send : option bool) : LiveCheck :=
  {| conf_origin := origin;
     bus_concurrency := override bus_conc 30%Z;
     test_concurrency := override test_conc 100%Z;
     send_reports := override send true;
     test_topic_name := override test_topic "livecheck";
     bus_topic_name := override bus_topic "livecheck-bus";
     report_topic_name := override report_topic "livecheck-report";
     cases := ∅;
     reports := [] |}.

(** ** Registry *)

Definition with_cases (m : gmap string Case) (app : LiveCheck) : LiveCheck :=
  {| conf_origin := conf_origin app;
     bus_concurrency := bus_concurrency app;
     test_concurrency := test_concurrency app;
     send_reports := send_reports app;
     test_topic_name := test_topic_name app;
     bus_topic_name := bus_topic_name app;
     report_topic_name := report_topic_name app;
     cases := m;
     reports := reports app |}.

Definition with_reports (r : list (option string * TestReport))
    (app : LiveCheck) : LiveCheck :=
  {| conf_origin := conf_origin app;
     bus_concurrency := bus_concurrency app;
     test_concurrency := test_concurrency app;
     send_reports := send_reports app;
     test_topic_name := test_topic_name app;
     bus_topic_name := bus_topic_name app;
     report_topic_name := report_topic_name app;
     cases := cases app;
     reports := r |}.

(** [LiveCheck.add_case]: [self.cases[case.name] = case; return case]. *)
Definition add_case (case : Case) (app : LiveCheck) : Case * LiveCheck :=
  (case, with_cases (<[case_name case := case]> (cases app)) app).

(** ** Report publication *)

(** [LiveCheck.post_report]: the key is the originating test's id when the
    report carries a test, [None] otherwise; the report is sent on the
    report topic. *)
Definition post_report (report : TestReport) (app : LiveCheck) : LiveCheck :=
  let key :=
    match report_test report with
    | Some t => Some (test_id t)
    | None => None
    end in
  with_reports (reports app ++ [(key, report)])%list app.

(** ** Produce hook *)

(** Modelled from the spec: the execution context of locals.py, a stack
    of active test executions; [current_test()] is its top, or [None]. *)
Definition current_test (stack : list TestExecution)
  : option TestExecution :=
  match stack with
  | [] => None
  | t :: _ => Some t
  end.

(** [LiveCheck.on_produce_attach_test_headers].  [as_headers test] is the
    item list of [test.as_headers()], [want_bytes] the conversion of
    mode.utils.compat; the result is the content of the caller's
    [headers] list after the call. *)
Definition on_produce_attach_test_headers {V B : Type}
    (as_headers : TestExecution -> list (string * V))
    (want_bytes : V -> B)
    (stack : list TestExecution)
    (headers : option (list (string * B)))
  : outcome (option (list (string * B))) :=
  match current_test stack with
  | Some test =>
      match headers with
      | None => Raise (TypeError "Produce request missing headers list")
      | Some hs =>
          Ok (Some (hs ++ map (fun kv => (fst kv, want_bytes (snd kv)))
                              (as_headers test))%list)
      end
  | None => Ok headers
  end.

(** ** The case decorator *)

(** What [issubclass] can be asked about: a class, which is or is not a
    subclass of [BaseSignal], or an object that is not a class (a string
    forward reference, a typing construct), for which [issubclass] raises
    [TypeError]. *)
Inductive tyobj : Type :=
  | TyClass (is_signal : bool)
  | TyNotAClass.

(** A field annotation: the annotation object itself and its [__origin__]
    attribute: absent ([None]), present and [None] ([Some None]), or
    present with a value. *)
Record annotation : Type := mkAnnotation {
  ann_self : tyobj;
  ann_origin : option (option tyobj);
}.

(** The class handed to the decorator: [qualname(cls)], the ordered
    [fields] of [annotations(case_cls, stop=base_case, ...)], and what
    [getattr(case_cls, attr_name, None)] finds for each attribute name (no
    entry when it gives [None]).  A bound value is a reference to a signal
    object in the heap, as the annotation declares. *)
Record PyClass : Type := mkPyClass {
  cls_qualname : string;
  cls_fields : list (string * annotation);
  cls_attrs : gmap string loc;
}.

(** [getattr(attr_type, '__origin__', attr_type)], then the fallback for
    an [__origin__] that is [None]. *)
Definition actual_type (attr_type : annotation) : tyobj :=
  match ann_origin attr_type with
  | None => ann_self attr_type
  | Some None => ann_self attr_type
  | Some (Some t) => t
  end.

(** [issubclass(t, BaseSignal)]; [None] is the [TypeError]. *)
Definition issubclass_BaseSignal (t : tyobj) : option bool :=
  match t with
  | TyClass b => Some b
  | TyNotAClass => None
  end.

(** [LiveCheck._extract_signals]: the names yielded, in field order. *)
Fixpoint _extract_signals (fields : list (string * annotation))
  : list string :=
  match fields with
  | [] => []
  | (attr_name, attr_type) :: rest =>
      match issubclass_BaseSignal (actual_type attr_type) with
      | Some true => attr_name :: _extract_signals rest
      | Some false => _extract_signals rest
      | None => _extract_signals rest
      end
  end.

(** State of the loop of [_inner]: the heap of signal objects, the
    attributes of [case_cls], and the local list [signals]. *)
Record loop_state : Type := mkLoop {
  heap : list Signal;
  attrs : gmap string loc;
  signals : list loc;
}.

(** One iteration: [signal = getattr(case_cls, attr_name, None)], then the
    two branches. *)
Definition assign_signal (i : nat) (attr_name : string) (st : loop_state)
  : loop_state :=
  match attrs st !! attr_name with
  | None =>
      let l := length (heap st) in
      {| heap := (heap st ++ [mkSignal attr_name (Z.of_nat i + 1)])%list;
         attrs := <[attr_name := l]> (attrs st);
         signals := (signals st ++ [l])%list |}
  | Some l =>
      {| heap := alter (set_index (Z.of_nat i + 1)) l (heap st);
         attrs := attrs st;
         signals := signals st |}
  end.

(** [for i, attr_name in enumerate(signal_names)], from position [i]. *)
Fixpoint assign_signals (i : nat) (signal_names : list string)
    (st : loop_state) : loop_state :=
  match signal_names with
  | [] => st
  | attr_name :: rest =>
      assign_signals (S i) rest (assign_signal i attr_name st)
  end.

(** What the process holds when a class is decorated: the application and
    the heap of signal objects. *)
Record runtime : Type := mkRuntime {
  rt_app : LiveCheck;
  rt_heap : list Signal;
}.

(** [LiveCheck.case(name=..., **options)(cls)]: the signal loop, then the
    construction and registration of the case.  The loop has run, and its
    writes stay, when name resolution raises. *)
Definition case (name : option string) (options : CaseOptions)
    (cls : PyClass) (rt : runtime) : outcome Case * runtime :=
  let signal_names := _extract_signals (cls_fields cls) in
  let st :=
    assign_signals 0 signal_names
      {| heap := rt_heap rt; attrs := cls_attrs cls; signals := [] |} in
  match _prepare_case_name (conf_origin (rt_app rt))
          (str_or name (cls_qualname cls)) with
  | Raise e => (Raise e, {| rt_app := rt_app rt; rt_heap := heap st |})
  | Ok resolved =>
      let (c, app') :=
        add_case
          {| case_cls_attrs := attrs st;
             case_name := resolved;
             case_signals := signals st;
             case_options := options |}
          (rt_app rt) in
      (Ok c, {| rt_app := app'; rt_heap := heap st |})
  end.

(** Positions and names of the declared signals that had no value when
    the loop reached them: [(i, n)] for [n] at position [i] (counted from
    [i0]) with no entry in [a]. *)
Fixpoint unbound_decls (i0 : nat) (signal_names : list string)
    (a : gmap string loc) : list (nat * string) :=
  match signal_names with
  | [] => []
  | n :: rest =>
      match a !! n with
      | None => (i0, n) :: unbound_decls (S i0) rest a
      | Some _ => unbound_decls (S i0) rest a
      end
  end.

(** ** Well-formedness of a decorated class *)

(** Every bound attribute refers to an object of the heap. *)
Definition attrs_in_heap (a : gmap string loc) (h : list Signal) : Prop :=
  forall n l, a !! n = Some l -> l < length h.

(** No two of the given attributes are bound to the same object. *)
Definition distinct_objects (names : list string) (a : gmap string loc)
  : Prop :=
  forall n1 n2 l,
    n1 ∈ names -> n2 ∈ names ->
    a !! n1 = Some l -> a !! n2 = Some l -> n1 = n2.

(** After a successful decoration of [cls] in [rt], the attribute of the
    [i]-th declared signal refers to an object whose index is [i + 1]. *)
Definition indices_follow_declaration (cls : PyClass) (rt : runtime)
  : Prop :=
  forall name options c rt',
    case name options cls rt = (Ok c, rt') ->
    forall i n,
      _extract_signals (cls_fields cls) !! i = Some n ->
      exists l s,
        case_cls_attrs c !! n = Some l
        /\ rt_heap rt' !! l = Some s
        /\ sig_index s = (Z.of_nat i + 1)%Z.

(** ** Agent loops *)

(** The agents run against the application and whatever else their
    collaborators touch, [W]. *)
Definition agent_state (W : Type) : Type := (LiveCheck * W)%type.

(** [LiveCheck._populate_signals] over the events the stream delivers.
    [resolve_signal case test_id event] is [case.resolve_signal]. *)
Fixpoint _populate_signals {W : Type}
    (resolve_signal :
       Case -> string -> SignalEvent -> agent_state W ->
       outcome unit * agent_state W)
    (events : list (string * SignalEvent)) (st : agent_state W)
  : outcome unit * agent_state W :=
  match events with
  | [] => (Ok tt, st)
  | (test_id, event) :: rest =>
      match _prepare_case_name (conf_origin (fst st))
              (event_case_name event) with
      | Raise e => (Raise e, st)
      | Ok resolved =>
          let event := set_event_case_name resolved event in
          match cases (fst st) !! event_case_name event with
          | None => (Raise (KeyError (event_case_name event)), st)
          | Some case =>
              match resolve_signal case test_id event st with
              | (Ok _, st') => _populate_signals resolve_signal rest st'
              | (Raise e, st') => (Raise e, st')
              end
          end
      end
  end.

(** [LiveCheck._execute_tests] over the requests the stream delivers.
    [execute case test] is [case.execute]; only that call is inside the
    [try], and only [LiveCheckError] is caught. *)
Fixpoint _execute_tests {W : Type}
    (execute :
       Case -> TestExecution -> agent_state W ->
       outcome unit * agent_state W)
    (tests : list (string * TestExecution)) (st : agent_state W)
  : outcome unit * agent_state W :=
  match tests with
  | [] => (Ok tt, st)
  | (_, test) :: rest =>
      match _prepare_case_name (conf_origin (fst st))
              (test_case_name test) with
      | Raise e => (Raise e, st)
      | Ok resolved =>
          let test := set_test_case_name resolved test in
          match cases (fst st) !! test_case_name test with
          | None => (Raise (KeyError (test_case_name test)), st)
          | Some case =>
              match execute case test st with
              | (Ok _, st') => _execute_tests execute rest st'
              | (Raise e, st') =>
                  if is_LiveCheckError e
                  then _execute_tests execute rest st'
                  else (Raise e, st')
              end
          end
      end
  end.

(** What handling one request does to the state when its case is
    registered: the state [case.execute] leaves, whether it returned or
    raised; the state is as it was when the name does not resolve or is
    not registered. *)
Definition run_request {W : Type}
    (execute :
       Case -> TestExecution -> agent_state W ->
       outcome unit * agent_state W)
    (st : agent_state W) (it : string * TestExecution) : agent_state W :=
  match _prepare_case_name (conf_origin (fst st))
          (test_case_name (snd it)) with
  | Raise _ => st
  | Ok resolved =>
      match cases (fst st) !! resolved with
      | None => st
      | Some c => snd (execute c (set_test_case_name resolved (snd it)) st)
      end
  end.

(** ** Stream sensor *)

(** The attribute [current_test] that the sensor keeps on a stream;
    [getattr(stream, 'current_test', None)] reads it, an absent attribute
    reading as [None]. *)
Record Stream : Type := mkStream {
  stream_current_test : option TestExecution;
}.

(** Modelled from the spec: the two writes of the execution context of
    locals.py.  [push_without_automatic_cleanup] makes its argument the
    active execution; [pop] drops the active execution, if any. *)
Definition push_without_automatic_cleanup (test : TestExecution)
    (stack : list TestExecution) : list TestExecution :=
  test :: stack.

Definition pop (stack : list TestExecution) : list TestExecution :=
  match stack with
  | [] => []
  | _ :: rest => rest
  end.

(** [LiveCheckSensor.on_stream_event_in], on the stream and the context
    stack.  [from_headers] is [TestExecution.from_headers]. *)
Definition on_stream_event_in {H : Type}
    (from_headers : H -> option TestExecution) (headers : H)
    (st : Stream * list TestExecution) : Stream * list TestExecution :=
  match from_headers headers with
  | Some test =>
      ({| stream_current_test := Some test |},
       push_without_automatic_cleanup test (snd st))
  | None => st
  end.

(** [LiveCheckSensor.on_stream_event_out]; a test execution object is
    truthy. *)
Definition on_stream_event_out (st : Stream * list TestExecution)
  : Stream * list TestExecution :=
  match stream_current_test (fst st) with
  | Some _ => ({| stream_current_test := None |}, pop (snd st))
  | None => st
  end.

(** ** Building a LiveCheck application for an application *)

(** Values of keyword arguments. *)
Inductive pyval : Type :=
  | PNone
  | PStr (s : string)
  | PInt (z : Z)
  | PBool (b : bool).

Definition of_opt {A : Type} (inj : A -> pyval) (o : option A) : pyval :=
  match o with
  | Some a => inj a
  | None => PNone
  end.

(** Binding a keyword argument to a parameter of the declared type; a
    missing key takes the parameter's default, [None].  Values of another
    type are outside the declared signature. *)
Definition as_str (v : option pyval) : option string :=
  match v with
  | Some (PStr s) => Some s
  | _ => None
  end.

Definition as_int (v : option pyval) : option Z :=
  match v with
  | Some (PInt z) => Some z
  | _ => None
  end.

Definition as_bool (v : option pyval) : option bool :=
  match v with
  | Some (PBool b) => Some b
  | _ => None
  end.

(** The seven entries that [LiveCheck.for_app] writes into [override]
    from its named parameters, set or [None]. *)
Definition for_app_named_args (web_port : Z)
    (test_topic_name bus_topic_name report_topic_name : option string)
    (bus_concurrency test_concurrency : option Z)
    (send_reports : option bool) : gmap string pyval :=
  <["web_port" := PInt web_port]>
  (<["test_topic_name" := of_opt PStr test_topic_name]>
  (<["bus_topic_name" := of_opt PStr bus_topic_name]>
  (<["report_topic_name" := of_opt PStr report_topic_name]>
  (<["bus_concurrency" := of_opt PInt bus_concurrency]>
  (<["test_concurrency" := of_opt PInt test_concurrency]>
  (<["send_reports" := of_opt PBool send_reports]> ∅)))))).

(** The dict [options] of [LiveCheck.for_app]:
    [{**passed_kwargs, **override}], where [override] is the seven named
    entries followed by [**kwargs]; in a dict display the later entry for
    a key wins. *)
Definition for_app_options (passed_kwargs : gmap string pyval)
    (web_port : Z)
    (test_topic_name bus_topic_name report_topic_name : option string)
    (bus_concurrency test_concurrency : option Z)
    (send_reports : option bool)
    (kwargs : gmap string pyval) : gmap string pyval :=
  let override :=
    kwargs ∪ for_app_named_args web_port test_topic_name bus_topic_name
               report_topic_name bus_concurrency test_concurrency
               send_reports in
  override ∪ passed_kwargs.

(** The names [for_app] always puts in [override]. *)
Definition for_app_named : list string :=
  ["web_port"; "test_topic_name"; "bus_topic_name"; "report_topic_name";
   "bus_concurrency"; "test_concurrency"; "send_reports"].

(** The application a LiveCheck application is attached to: the
    [_default_options] pair, the web middlewares, the number of LiveCheck
    sensors among its sensors, and the [livecheck] attribute. *)
Inductive middleware : Type :=
  | LiveCheckMiddleware
  | OtherMiddleware (name : string).

Record App : Type := mkApp {
  app_default_options : string * gmap string pyval;
  app_middlewares : list middleware;
  app_livecheck_sensors : nat;
  app_livecheck : option LiveCheck;
}.

(** [LiveCheck._contribute_to_app]. *)
Definition _contribute_to_app (self : LiveCheck) (app : App) : App :=
  {| app_default_options := app_default_options app;
     app_middlewares := (app_middlewares app ++ [LiveCheckMiddleware])%list;
     app_livecheck_sensors := S (app_livecheck_sensors app);
     app_livecheck := Some self |}.

(** [LiveCheck.for_app]: the id, the application constructed from
    [options] (whose [origin] entry is the origin setting of the base
    class), and the application it was attached to. *)
Definition for_app (app : App) (prefix : string) (web_port : Z)
    (test_topic_name bus_topic_name report_topic_name : option string)
    (bus_concurrency test_concurrency : option Z)
    (send_reports : option bool)
    (kwargs : gmap string pyval) : string * LiveCheck * App :=
  let (app_id, passed_kwargs) := app_default_options app in
  let livecheck_id := prefix ++ app_id in
  let options :=
    for_app_options passed_kwargs web_port test_topic_name bus_topic_name
      report_topic_name bus_concurrency test_concurrency send_reports
      kwargs in
  let livecheck_app :=
    __init__ (as_str (options !! "origin"))
      (as_str (options !! "test_topic_name"))
      (as_str (options !! "bus_topic_name"))
      (as_str (options !! "report_topic_name"))
      (as_int (options !! "bus_concurrency"))
      (as_int (options !! "test_concurrency"))
      (as_bool (options !! "send_reports")) in
  (livecheck_id, livecheck_app, _contribute_to_app livecheck_app app).

(** ** Posting several reports *)

(** [post_report] called once for each report of [rs], in order. *)
Definition post_reports (rs : list TestReport) (app : LiveCheck)
  : LiveCheck :=
  fold_left (fun a r => post_report r a) rs app.

(** The key [post_report] sends a report under. *)
Definition report_key (report : TestReport) : option string :=
  match report_test report with
  | Some t => Some (test_id t)
  | None => None
  end.

(** ** Sample inputs *)

(** A test execution and a header serialisation to run the hook on. *)
Definition sample_test : TestExecution :=
  {| test_id := "t1"; test_case_name := "orders";
     test_timestamp := 0; test_expires_at := 60 |}.

Definition sample_as_headers (t : TestExecution) : list (string * string) :=
  [("LiveCheck-Test-Id", test_id t);
   ("LiveCheck-Test-Case-Name", test_case_name t)].

Definition default_options : CaseOptions :=
  {| probability := None; warn_stalled_after := Timedelta 1800000000;
     active := None; test_expires := None; frequency := None;
     max_history := None; max_consecutive_failures := None;
     url_timeout_total := None; url_timeout_connect := None;
     url_error_retries := None; url_error_delay_min := None;
     url_error_delay_backoff := None; url_error_delay_max := None |}.

Definition orders_v1 : Case :=
  {| case_cls_attrs := {[ "persisted" := 0 ]}; case_name := "orders";
     case_signals := [0]; case_options := default_options |}.

Definition orders_v2 : Case :=
  {| case_cls_attrs := {[ "persisted" := 1; "shipped" := 2 ]};
     case_name := "orders"; case_signals := [1; 2];
     case_options := default_options |}.

Definition sample_app : LiveCheck :=
  __init__ (Some "pkg.mod") None None None None None None.

Definition silent_app : LiveCheck :=
  __init__ (Some "pkg.mod") None None None None None (Some false).

Definition sample_report : TestReport :=
  {| report_test := Some sample_test; report_passed := true;
     report_signal_latency := [("persisted", 12%Z)]; report_runtime := 40 |}.

Definition orphan_report : TestReport :=
  {| report_test := None; report_passed := false;
     report_signal_latency := []; report_runtime := 0 |}.

(** A registry holding the case [orders], and collaborators that record
    the ids they are called with; the execution of test [A] fails. *)
Definition orders_app : LiveCheck := snd (add_case orders_v1 sample_app).

Definition request (id name : string) : TestExecution :=
  {| test_id := id; test_case_name := name;
     test_timestamp := 0; test_expires_at := 60 |}.

Definition persisted_event (id name : string) : SignalEvent :=
  {| event_test_id := id; event_case_name := name;
     event_signal_name := "persisted"; event_key := id;
     event_value := ""; event_timestamp := 0 |}.

Definition logging_execute (c : Case) (t : TestExecution)
    (st : agent_state (list string))
  : outcome unit * agent_state (list string) :=
  let st' := (fst st, (snd st ++ [test_id t])%list) in
  if String.eqb (test_id t) "A"
  then (Raise (LiveCheckError "signal timed out"), st')
  else (Ok tt, st').

Definition logging_resolve_signal (c : Case) (id : string) (e : SignalEvent)
    (st : agent_state (list string))
  : outcome unit * agent_state (list string) :=
  (Ok tt, (fst st, (snd st ++ [id])%list)).

(** Annotations [Signal[str]] and [int], and three classes: one whose
    signals have no value yet, one where a declared signal already has a
    value, and one where two declared signals are bound to one object. *)
Definition signal_ann : annotation :=
  {| ann_self := TyClass true; ann_origin := Some (Some (TyClass true)) |}.

Definition int_ann : annotation :=
  {| ann_self := TyClass false; ann_origin := None |}.

Definition plain_cls : PyClass :=
  {| cls_qualname := "__main__.Orders";
     cls_fields := [("created", signal_ann); ("retries", int_ann);
                    ("persisted", signal_ann)];
     cls_attrs := ∅ |}.

Definition mixed_cls : PyClass :=
  {| cls_qualname := "__main__.Orders";
     cls_fields := [("created", signal_ann); ("persisted", signal_ann);
                    ("shipped", signal_ann)];
     cls_attrs := {[ "persisted" := 0 ]} |}.

Definition mixed_rt : runtime :=
  {| rt_app := sample_app; rt_heap := [mkSignal "persisted" (-1)] |}.

Definition aliased_cls : PyClass :=
  {| cls_qualname := "__main__.Orders";
     cls_fields := [("sent", signal_ann); ("received", signal_ann)];
     cls_attrs := {[ "sent" := 0; "received" := 0 ]} |}.

Definition aliased_rt : runtime :=
  {| rt_app := sample_app; rt_heap := [mkSignal "shared" (-1)] |}.

(** An application with no origin, and a runtime around it. *)
Definition no_origin_app : LiveCheck :=
  __init__ None None None None None None None.

Definition no_origin_rt : runtime :=
  {| rt_app := no_origin_app; rt_heap := [mkSignal "persisted" (-1)] |}.

Definition plain_rt : runtime :=
  {| rt_app := sample_app; rt_heap := [] |}.

Definition invoices_v1 : Case :=
  {| case_cls_attrs := ∅; case_name := "invoices";
     case_signals := []; case_options := default_options |}.

(** Collaborators that fail with an error outside the LiveCheck family,
    resp. with a [LiveCheckError], on the message with id [A]. *)
Definition crashing_execute (c : Case) (t : TestExecution)
    (st : agent_state (list string))
  : outcome unit * agent_state (list string) :=
  let st' := (fst st, (snd st ++ [test_id t])%list) in
  if String.eqb (test_id t) "A"
  then (Raise (OtherException "ValueError"), st')
  else (Ok tt, st').

Definition failing_resolve_signal (c : Case) (id : string) (e : SignalEvent)
    (st : agent_state (list string))
  : outcome unit * agent_state (list string) :=
  let st' := (fst st, (snd st ++ [id])%list) in
  if String.eqb id "A"
  then (Raise (LiveCheckError "no such signal"), st')
  else (Ok tt, st').

(** An application built with an origin and topic settings of its own,
    and a header decoder that reads the test id from a list of pairs. *)
Definition parent_app : App :=
  {| app_default_options :=
       ("shop", {[ "origin" := PStr "pkg.mod"; "web_port" := PInt 6066;
                   "test_topic_name" := PStr "mine" ]});
     app_middlewares := [OtherMiddleware "cors"];
     app_livecheck_sensors := 0;
     app_livecheck := None |}.

Definition sample_from_headers (h : list (string * string))
  : option TestExecution :=
  match h with
  | ("LiveCheck-Test-Id", id) :: _ => Some (request id "orders")
  | _ => None
  end.

(** * Properties *)

(** ** Facts about strings *)

Lemma startswith_inv (p s : string) :
  startswith p s = true -> exists t, s = p ++ t.
Proof.
  revert s. induction p as [|a p IH]; intros s H; simpl in *.
  - exists s. reflexivity.
  - destruct s as [|b s]; [discriminate|].
    destruct (Ascii.eqb a b) eqn:E; [|discriminate].
    apply Ascii.eqb_eq in E. subst b.
    destruct (IH s H) as [t ->]. exists t. reflexivity.
Qed.

Lemma slice_from_app (p s : string) :
  slice_from (String.length p) (p ++ s) = s.
Proof. induction p as [|a p IH]; simpl; [reflexivity | exact IH]. Qed.

Lemma append_cons (c : ascii) (s t : string) :
  String c s ++ t = String c (s ++ t).
Proof. reflexivity. Qed.

Lemma append_empty_l (t : string) : "" ++ t = t.
Proof. reflexivity. Qed.

(** If [o] does not begin with [p], and [p] has no occurrence of [c], then
    [o] followed by [c] does not begin with any extension of [p]: either
    [o] departs from [p] somewhere, or [o] ends inside [p] and the [c] that
    follows meets a character of [p]. *)
Lemma startswith_after_sep (c : ascii) (p q o t : string) :
  lacks c p = true ->
  startswith p o = false ->
  startswith (p ++ q) (o ++ String c t) = false.
Proof.
  revert o. induction p as [|a p IH]; intros o Hp Ho.
  - discriminate Ho.
  - cbn [lacks] in Hp. apply andb_prop in Hp. destruct Hp as [Ha Hp].
    rewrite append_cons.
    destruct o as [|b o].
    + rewrite append_empty_l. cbn [startswith].
      destruct (Ascii.eqb a c); [discriminate Ha | reflexivity].
    + rewrite append_cons. cbn [startswith] in *.
      destruct (Ascii.eqb a b); [apply IH; assumption | reflexivity].
Qed.

(** ** Name resolution: properties *)

Lemma startswith_placeholder_split (name : string) :
  startswith "__main__." name = true ->
  name = "__main__." ++ slice_from 9 name.
Proof.
  intros H. destruct (startswith_inv _ _ H) as [t ->].
  reflexivity.
Qed.

Lemma slice_placeholder (suffix : string) :
  slice_from 8 ("__main__." ++ suffix) = String "." suffix.
Proof. reflexivity. Qed.

(** C1. A name that starts with [__main__.] is rewritten under a
    configured (non-empty) origin to the origin, a dot, and what follows
    the placeholder; with no origin, or an empty one, resolution raises the
    [RuntimeError] that the design document calls a configuration error. *)
Theorem prepare_case_name_placeholder (origin : option string)
    (name : string) :
  startswith "__main__." name = true ->
  (forall o, origin = Some o -> o <> "" ->
     _prepare_case_name origin name = Ok (o ++ "." ++ slice_from 9 name))
  /\ (str_truthy origin = false ->
      exists e, _prepare_case_name origin name = Raise e
                /\ e = RuntimeError "LiveCheck app missing origin argument"
                /\ role_of e = ConfigurationError).
Proof.
  intros H. pose proof (startswith_placeholder_split name H) as Hn.
  unfold _prepare_case_name. rewrite H. split.
  - intros o -> Ho. destruct o as [|c o]; [congruence|].
    rewrite Hn at 1. rewrite slice_placeholder. reflexivity.
  - intros Hf. eexists. split; [|split; reflexivity].
    destruct origin as [[|c o]|]; simpl in Hf; try discriminate; reflexivity.
Qed.

Lemma prepare_case_name_placeholder_witness :
  _prepare_case_name (Some "pkg.mod") "__main__.Foo" = Ok "pkg.mod.Foo"
  /\ exists e, _prepare_case_name None "__main__.Foo" = Raise e
               /\ e = RuntimeError "LiveCheck app missing origin argument"
               /\ role_of e = ConfigurationError.
Proof.
  split.
  - apply (proj1 (prepare_case_name_placeholder
                    (Some "pkg.mod") "__main__.Foo" eq_refl)
                 "pkg.mod" eq_refl).
    discriminate.
  - apply (proj2 (prepare_case_name_placeholder
                    None "__main__.Foo" eq_refl) eq_refl).
Defined.

(** C10. A name that does not start with [__main__.] is returned as it
    is, whatever the origin; and when the origin does not start with
    [__main__], a resolved name resolves to itself. *)
Theorem prepare_case_name_stable (origin : option string) (name : string) :
  (startswith "__main__." name = false ->
     _prepare_case_name origin name = Ok name)
  /\ (forall resolved,
        (forall o, origin = Some o -> startswith "__main__" o = false) ->
        _prepare_case_name origin name = Ok resolved ->
        _prepare_case_name origin resolved = Ok resolved).
Proof.
  split.
  - intros H. unfold _prepare_case_name. rewrite H. reflexivity.
  - intros resolved Ho Hr.
    destruct (startswith "__main__." name) eqn:Hn.
    + destruct (startswith_inv _ _ Hn) as [t ->].
      unfold _prepare_case_name in Hr. rewrite Hn in Hr.
      destruct origin as [[|c o]|]; try discriminate.
      assert (resolved = String c o ++ String "." t) as ->
        by (injection Hr as <-; reflexivity).
      unfold _prepare_case_name.
      pose proof (startswith_after_sep "." "__main__" "." (String c o) t
                    eq_refl (Ho _ eq_refl)) as E.
      change ("__main__" ++ ".") with "__main__." in E.
      rewrite E. reflexivity.
    + unfold _prepare_case_name in Hr. rewrite Hn in Hr.
      injection Hr as <-.
      unfold _prepare_case_name. rewrite Hn. reflexivity.
Qed.

Lemma prepare_case_name_stable_witness :
  _prepare_case_name None "orders" = Ok "orders"
  /\ _prepare_case_name (Some "pkg.mod") "pkg.mod.Foo" = Ok "pkg.mod.Foo".
Proof.
  split.
  - apply (proj1 (prepare_case_name_stable None "orders") eq_refl).
  - apply (proj2 (prepare_case_name_stable (Some "pkg.mod") "__main__.Foo")
                 "pkg.mod.Foo").
    + intros o [= <-]. reflexivity.
    + reflexivity.
Defined.

(** ** Produce hook: properties *)

Section ProduceHook.
Context {V B : Type}.
Variable as_headers : TestExecution -> list (string * V).
Variable want_bytes : V -> B.

(** C4. While a test is current, the hook leaves in the header list the
    headers that were there, followed by the items of the test's
    [as_headers()] with each value converted by [want_bytes]; when the
    caller passed no list it raises the [TypeError] that the design
    document calls a configuration error. *)
Theorem produce_attaches_test_headers (stack : list TestExecution)
    (test : TestExecution) :
  current_test stack = Some test ->
  (forall hs,
     on_produce_attach_test_headers as_headers want_bytes stack (Some hs)
     = Ok (Some (hs ++ map (fun kv => (fst kv, want_bytes (snd kv)))
                           (as_headers test))%list))
  /\ (exists e, on_produce_attach_test_headers as_headers want_bytes stack None = Raise e
                /\ e = TypeError "Produce request missing headers list"
                /\ role_of e = ConfigurationError).
Proof.
  intros H. unfold on_produce_attach_test_headers. rewrite H.
  split; [reflexivity|]. eexists. repeat split.
Qed.

(** C7. With no current test the hook returns normally and the header
    argument, list or [None], is what it was. *)
Theorem produce_without_test_is_noop (stack : list TestExecution)
    (headers : option (list (string * B))) :
  current_test stack = None ->
  on_produce_attach_test_headers as_headers want_bytes stack headers = Ok headers.
Proof.
  intros H. unfold on_produce_attach_test_headers.
  rewrite H. reflexivity.
Qed.
End ProduceHook.

Lemma produce_attaches_test_headers_witness :
  on_produce_attach_test_headers sample_as_headers list_byte_of_string
    [sample_test] (Some [("trace", list_byte_of_string "abc")])
  = Ok (Some [("trace", list_byte_of_string "abc");
              ("LiveCheck-Test-Id", list_byte_of_string "t1");
              ("LiveCheck-Test-Case-Name", list_byte_of_string "orders")])
  /\ exists e,
       on_produce_attach_test_headers sample_as_headers list_byte_of_string
         [sample_test] None = Raise e
       /\ e = TypeError "Produce request missing headers list"
       /\ role_of e = ConfigurationError.
Proof.
  pose proof (produce_attaches_test_headers sample_as_headers
                list_byte_of_string [sample_test] sample_test eq_refl)
    as [Hsome Hnone].
  split; [exact (Hsome _) | exact Hnone].
Defined.

Lemma produce_without_test_is_noop_witness :
  on_produce_attach_test_headers sample_as_headers list_byte_of_string
    [] None = Ok None
  /\ on_produce_attach_test_headers sample_as_headers list_byte_of_string
       [] (Some [("trace", list_byte_of_string "abc")])
     = Ok (Some [("trace", list_byte_of_string "abc")]).
Proof.
  split; apply produce_without_test_is_noop; reflexivity.
Defined.

(** ** Registry: properties *)

(** C8. Registering a second case under a name already in use replaces
    the first and leaves the registry as if the first had never been
    added; a registration leaves every other name as it was; and
    [add_case] always returns, with the case it was given. *)
Theorem add_case_replaces (app : LiveCheck) (c1 c2 : Case) :
  case_name c1 = case_name c2 ->
  let app1 := snd (add_case c1 app) in
  let app2 := snd (add_case c2 app1) in
  cases app2 !! case_name c1 = Some c2
  /\ cases app2 = cases (snd (add_case c2 app))
  /\ fst (add_case c2 app1) = c2
  /\ (forall c other, other <> case_name c ->
        cases (snd (add_case c app)) !! other = cases app !! other).
Proof.
  intros Hname. cbn. rewrite Hname.
  split; [apply lookup_insert_eq|].
  split; [apply insert_insert_eq|].
  split; [reflexivity|].
  intros c other Hne. rewrite lookup_insert_ne; congruence.
Qed.

Lemma add_case_replaces_witness :
  cases (snd (add_case orders_v2 (snd (add_case orders_v1 sample_app))))
    !! "orders" = Some orders_v2.
Proof.
  exact (proj1 (add_case_replaces sample_app orders_v1 orders_v2 eq_refl)).
Defined.

(** ** Report publication: properties *)

(** The key under which [post_report] sends a report. *)
Lemma post_report_key_some (report : TestReport) (t : TestExecution)
    (app : LiveCheck) :
  report_test report = Some t ->
  reports (post_report report app)
  = (reports app ++ [(Some (test_id t), report)])%list.
Proof. intros H. unfold post_report. rewrite H. reflexivity. Qed.

Example post_report_without_test :
  reports (post_report orphan_report sample_app) = [(None, orphan_report)].
Proof. reflexivity. Qed.

(** With [send_reports] switched off the report topic still receives
    the report. *)
Lemma post_report_ignores_send_reports :
  ~ (forall (app : LiveCheck) (report : TestReport),
       send_reports app = false ->
       reports (post_report report app) = reports app).
Proof.
  intros H. specialize (H silent_app sample_report eq_refl).
  discriminate H.
Qed.

(** [post_report] sends every report it is given, once, after the
    messages already on the report topic: keyed by the id of the
    originating test when the report has one and by [None] when it has
    none.  It changes nothing else of the application, and it does not
    read [send_reports]. *)
Lemma post_report_publishes (app : LiveCheck) (report : TestReport) :
  reports (post_report report app)
  = (reports app
     ++ [(match report_test report with
          | Some t => Some (test_id t)
          | None => None
          end, report)])%list
  /\ cases (post_report report app) = cases app
  /\ send_reports (post_report report app) = send_reports app
  /\ conf_origin (post_report report app) = conf_origin app.
Proof. repeat split. Qed.

(** C6. The comment on [send_reports] says to unset it when reports are
    not to be sent to the report topic, and the claim says publication
    happens only when reporting is enabled.  [post_report] does key the
    report by the originating test's id, but on an application created
    with [send_reports=False], with an empty report topic, it publishes
    all the same: the flag is stored and never read. *)
Theorem post_report_publishes_when_disabled :
  send_reports silent_app = false
  /\ reports silent_app = []
  /\ reports (post_report sample_report silent_app)
     = [(Some "t1", sample_report)].
Proof. repeat split. Qed.

(** ** Agent loops: properties *)

Section AgentLoops.
Context {W : Type}.
Variable execute :
  Case -> TestExecution -> agent_state W -> outcome unit * agent_state W.
Variable resolve_signal :
  Case -> string -> SignalEvent -> agent_state W ->
  outcome unit * agent_state W.

(** The loop over a stream is the loop over a first part and, when that
    returns normally, the loop over what follows. *)
Lemma execute_tests_app (pre post : list (string * TestExecution))
    (st : agent_state W) :
  _execute_tests execute (pre ++ post)%list st
  = match _execute_tests execute pre st with
    | (Ok _, st') => _execute_tests execute post st'
    | (Raise e, st') => (Raise e, st')
    end.
Proof.
  revert st. induction pre as [|[id t] pre IH]; intros st.
  - reflexivity.
  - cbn [_execute_tests app].
    destruct (_prepare_case_name _ _) as [resolved|e]; [|reflexivity].
    destruct (cases (fst st) !! _) as [c|]; [|reflexivity].
    destruct (execute c _ st) as [[u|e] st']; [apply IH|].
    destruct (is_LiveCheckError e); [apply IH | reflexivity].
Qed.

Lemma populate_signals_app (pre post : list (string * SignalEvent))
    (st : agent_state W) :
  _populate_signals resolve_signal (pre ++ post)%list st
  = match _populate_signals resolve_signal pre st with
    | (Ok _, st') => _populate_signals resolve_signal post st'
    | (Raise e, st') => (Raise e, st')
    end.
Proof.
  revert st. induction pre as [|[id ev] pre IH]; intros st.
  - reflexivity.
  - cbn [_populate_signals app].
    destruct (_prepare_case_name _ _) as [resolved|e]; [|reflexivity].
    destruct (cases (fst st) !! _) as [c|]; [|reflexivity].
    destruct (resolve_signal c id _ st) as [[u|e] st']; [apply IH|].
    reflexivity.
Qed.

(** C2. When the loop has reached a request whose execution raises a
    [LiveCheckError], the exception is swallowed and the loop goes on with
    the requests that follow, from the state that execution left: what the
    loop does with them is what it does when they are all it is given. *)
Theorem execute_tests_isolates_failure
    (pre rest : list (string * TestExecution)) (id : string)
    (test : TestExecution) (st0 st st' : agent_state W)
    (resolved : string) (c : Case) (e : exn) :
  _execute_tests execute pre st0 = (Ok tt, st) ->
  _prepare_case_name (conf_origin (fst st)) (test_case_name test)
    = Ok resolved ->
  cases (fst st) !! resolved = Some c ->
  execute c (set_test_case_name resolved test) st = (Raise e, st') ->
  is_LiveCheckError e = true ->
  _execute_tests execute (pre ++ (id, test) :: rest)%list st0
  = _execute_tests execute rest st'.
Proof.
  intros Hpre Hname Hcase Hexec Herr.
  rewrite execute_tests_app, Hpre.
  cbn [_execute_tests]. rewrite Hname. cbn [test_case_name set_test_case_name].
  rewrite Hcase, Hexec, Herr. reflexivity.
Qed.

(** C3. When either loop has reached a message whose resolved case name
    is not in the registry, it ends there with the [KeyError] of the
    lookup: the exception is not a [LiveCheckError] and the lookup is
    outside the [try], the collaborator is not called (the state is the
    one the message was met in), and the messages that follow are not
    read. *)
Theorem unknown_case_propagates (resolved : string) :
  (forall (pre rest : list (string * TestExecution)) (id : string)
          (test : TestExecution) (st0 st : agent_state W),
     _execute_tests execute pre st0 = (Ok tt, st) ->
     _prepare_case_name (conf_origin (fst st)) (test_case_name test)
       = Ok resolved ->
     cases (fst st) !! resolved = None ->
     _execute_tests execute (pre ++ (id, test) :: rest)%list st0
     = (Raise (KeyError resolved), st))
  /\ (forall (pre rest : list (string * SignalEvent)) (id : string)
             (event : SignalEvent) (st0 st : agent_state W),
        _populate_signals resolve_signal pre st0 = (Ok tt, st) ->
        _prepare_case_name (conf_origin (fst st)) (event_case_name event)
          = Ok resolved ->
        cases (fst st) !! resolved = None ->
        _populate_signals resolve_signal (pre ++ (id, event) :: rest)%list st0
        = (Raise (KeyError resolved), st))
  /\ is_LiveCheckError (KeyError resolved) = false
  /\ role_of (KeyError resolved) = UnknownCase.
Proof.
  split; [|split; [|split; reflexivity]].
  - intros pre rest id test st0 st Hpre Hname Hcase.
    rewrite execute_tests_app, Hpre.
    cbn [_execute_tests]. rewrite Hname.
    cbn [test_case_name set_test_case_name]. rewrite Hcase. reflexivity.
  - intros pre rest id event st0 st Hpre Hname Hcase.
    rewrite populate_signals_app, Hpre.
    cbn [_populate_signals]. rewrite Hname.
    cbn [event_case_name set_event_case_name]. rewrite Hcase. reflexivity.
Qed.
(** X20. When [case.execute] leaves the application as it is and fails
    with nothing but [LiveCheckError], and every request names a
    registered case, the loop returns normally having executed every
    request of the stream, in order, each from the state its predecessor
    left, however many executions fail. *)
Theorem execute_tests_survives_failures (tests : list (string * TestExecution))
    (st : agent_state W) :
  (forall c t s, fst (snd (execute c t s)) = fst s) ->
  (forall c t s e, fst (execute c t s) = Raise e ->
     is_LiveCheckError e = true) ->
  Forall (fun it =>
            exists r c,
              _prepare_case_name (conf_origin (fst st))
                (test_case_name (snd it)) = Ok r
              /\ cases (fst st) !! r = Some c) tests ->
  _execute_tests execute tests st
  = (Ok tt, fold_left (run_request execute) tests st).
Proof.
  intros Happ Herr. revert st.
  induction tests as [|[id t] tests IH]; intros st Hall; [reflexivity|].
  apply Forall_cons in Hall as [(r & c & Hr & Hc) Hall].
  cbn [_execute_tests fold_left]. unfold run_request at 2.
  cbn [snd] in Hr |- *. rewrite Hr.
  cbn [test_case_name set_test_case_name]. rewrite Hc.
  pose proof (Happ c (set_test_case_name r t) st) as Hsame.
  pose proof (Herr c (set_test_case_name r t) st) as Hle.
  destruct (execute c (set_test_case_name r t) st) as [[u|e] st'];
    cbn [fst snd] in Hsame, Hle |- *.
  - apply IH. rewrite Hsame. exact Hall.
  - rewrite (Hle e eq_refl). apply IH. rewrite Hsame. exact Hall.
Qed.
End AgentLoops.

Lemma execute_tests_isolates_failure_witness :
  _execute_tests logging_execute
    [("B", request "B" "orders"); ("A", request "A" "orders");
     ("C", request "C" "orders")] (orders_app, [])
  = (Ok tt, (orders_app, ["B"; "A"; "C"])).
Proof.
  refine (eq_trans
            (execute_tests_isolates_failure logging_execute
               [("B", request "B" "orders")] [("C", request "C" "orders")]
               "A" (request "A" "orders") (orders_app, [])
               (orders_app, ["B"]) (orders_app, ["B"; "A"])
               "orders" orders_v1 (LiveCheckError "signal timed out")
               _ _ _ _ _) _).
  - vm_compute. reflexivity.
  - vm_compute. reflexivity.
  - reflexivity.
  - vm_compute. reflexivity.
  - reflexivity.
  - reflexivity.
Defined.

Lemma unknown_case_propagates_witness :
  _execute_tests logging_execute
    [("B", request "B" "orders"); ("X", request "X" "invoices");
     ("C", request "C" "orders")] (orders_app, [])
  = (Raise (KeyError "invoices"), (orders_app, ["B"]))
  /\ _populate_signals logging_resolve_signal
       [("B", persisted_event "B" "orders");
        ("X", persisted_event "X" "invoices");
        ("C", persisted_event "C" "orders")] (orders_app, [])
     = (Raise (KeyError "invoices"), (orders_app, ["B"])).
Proof.
  pose proof (unknown_case_propagates logging_execute logging_resolve_signal
                "invoices") as [Ht [Hs _]].
  split.
  - apply (Ht [("B", request "B" "orders")] [("C", request "C" "orders")]
              "X" (request "X" "invoices") (orders_app, [])
              (orders_app, ["B"])).
    + vm_compute. reflexivity.
    + reflexivity.
    + vm_compute. reflexivity.
  - apply (Hs [("B", persisted_event "B" "orders")]
              [("C", persisted_event "C" "orders")]
              "X" (persisted_event "X" "invoices") (orders_app, [])
              (orders_app, ["B"])).
    + vm_compute. reflexivity.
    + reflexivity.
    + vm_compute. reflexivity.
Defined.


(** ** The signal loop: properties *)

Lemma assign_signal_length (i : nat) (n : string) (st : loop_state) :
  length (heap st) <= length (heap (assign_signal i n st)).
Proof.
  unfold assign_signal. destruct (attrs st !! n) as [l|]; cbn.
  - rewrite length_alter. lia.
  - rewrite length_app. lia.
Qed.

Lemma assign_signal_wf (i : nat) (n : string) (st : loop_state) :
  attrs_in_heap (attrs st) (heap st) ->
  attrs_in_heap (attrs (assign_signal i n st)) (heap (assign_signal i n st)).
Proof.
  intros Hwf n' l'. unfold assign_signal.
  destruct (attrs st !! n) as [l|] eqn:E; cbn.
  - rewrite length_alter. apply Hwf.
  - rewrite length_app. cbn. rewrite lookup_insert.
    case_decide.
    + intros [= <-]. lia.
    + intros H'. apply Hwf in H'. lia.
Qed.

Lemma assign_signal_attrs_ne (i : nat) (n n' : string) (st : loop_state) :
  n' <> n -> attrs (assign_signal i n st) !! n' = attrs st !! n'.
Proof.
  intros Hne. unfold assign_signal.
  destruct (attrs st !! n) as [l|]; cbn; [reflexivity|].
  apply lookup_insert_ne. congruence.
Qed.

Lemma assign_signals_attrs_notin (i : nat) (ns : list string) (n : string)
    (st : loop_state) :
  n ∉ ns -> attrs (assign_signals i ns st) !! n = attrs st !! n.
Proof.
  revert i st. induction ns as [|m ns IH]; intros i st Hn; cbn; [reflexivity|].
  apply not_elem_of_cons in Hn as [Hne Hn].
  rewrite IH by assumption. apply assign_signal_attrs_ne. assumption.
Qed.

(** An object that the attribute of this iteration does not refer to is
    not written. *)
Lemma assign_signal_heap_frame (i : nat) (n : string) (st : loop_state)
    (l : loc) :
  l < length (heap st) ->
  attrs st !! n <> Some l ->
  heap (assign_signal i n st) !! l = heap st !! l.
Proof.
  intros Hl Hn. unfold assign_signal.
  destruct (attrs st !! n) as [l'|]; cbn.
  - apply list_lookup_alter_ne. congruence.
  - apply lookup_app_l. assumption.
Qed.

Lemma assign_signals_heap_frame (i : nat) (ns : list string)
    (st : loop_state) (l : loc) :
  l < length (heap st) ->
  (forall n, n ∈ ns -> attrs st !! n <> Some l) ->
  heap (assign_signals i ns st) !! l = heap st !! l.
Proof.
  revert i st. induction ns as [|m ns IH]; intros i st Hl Hns; cbn;
    [reflexivity|].
  rewrite IH.
  - apply assign_signal_heap_frame; [assumption|].
    apply Hns. left.
  - pose proof (assign_signal_length i m st). lia.
  - intros n Hn. destruct (decide (n = m)) as [->|Hne].
    + unfold assign_signal.
      destruct (attrs st !! m) as [l'|] eqn:E; cbn.
      * rewrite E. rewrite <- E. apply Hns. left.
      * rewrite lookup_insert_eq. intros [= Heq]. lia.
    + rewrite assign_signal_attrs_ne by assumption.
      apply Hns. right. assumption.
Qed.


(** The iteration for a declared signal with no value creates the signal
    with index [i + 1] and binds the attribute to it. *)
Lemma assign_signal_unbound (i : nat) (n : string) (st : loop_state) :
  attrs st !! n = None ->
  attrs (assign_signal i n st) !! n = Some (length (heap st))
  /\ heap (assign_signal i n st) !! length (heap st)
     = Some (mkSignal n (Z.of_nat i + 1))
  /\ signals (assign_signal i n st) = (signals st ++ [length (heap st)])%list.
Proof.
  intros E. unfold assign_signal. rewrite E. cbn.
  split; [apply lookup_insert_eq|]. split; [|reflexivity].
  rewrite lookup_app_r by lia. rewrite Nat.sub_diag. reflexivity.
Qed.

(** The iteration for an attribute that has a value sets the index of the
    object it refers to, and nothing else. *)
Lemma assign_signal_bound (i : nat) (n : string) (st : loop_state) (l : loc)
    (s : Signal) :
  attrs st !! n = Some l ->
  heap st !! l = Some s ->
  attrs (assign_signal i n st) = attrs st
  /\ heap (assign_signal i n st) !! l = Some (set_index (Z.of_nat i + 1) s)
  /\ signals (assign_signal i n st) = signals st.
Proof.
  intros E Hs. unfold assign_signal. rewrite E. cbn [heap attrs signals].
  split; [reflexivity|]. split; [|reflexivity].
  rewrite list_lookup_alter_eq, Hs. reflexivity.
Qed.

Lemma assign_signals_unbound (i : nat) (ns : list string) (st : loop_state)
    (k : nat) (n : string) :
  NoDup ns ->
  attrs_in_heap (attrs st) (heap st) ->
  ns !! k = Some n ->
  attrs st !! n = None ->
  exists l,
    attrs (assign_signals i ns st) !! n = Some l
    /\ heap (assign_signals i ns st) !! l
       = Some (mkSignal n (Z.of_nat (i + k) + 1))
    /\ length (heap st) <= l.
Proof.
  revert i st k. induction ns as [|m ns IH]; intros i st k Hnd Hwf Hk Hn;
    [discriminate|].
  apply NoDup_cons in Hnd as [Hm Hnd].
  pose proof (assign_signal_wf i m st Hwf) as Hwf1.
  pose proof (assign_signal_length i m st) as Hlen.
  destruct k as [|k]; cbn in Hk.
  - injection Hk as ->.
    destruct (assign_signal_unbound i n st Hn) as (Ha & Hh & _).
    exists (length (heap st)). cbn [assign_signals].
    rewrite assign_signals_attrs_notin by assumption.
    split; [assumption|]. split; [|lia].
    rewrite assign_signals_heap_frame.
    + rewrite Hh. rewrite Nat.add_0_r. reflexivity.
    + apply lookup_lt_Some in Hh. assumption.
    + intros n' Hn' Hl.
      assert (n' <> n) as Hne by (intros ->; contradiction).
      rewrite assign_signal_attrs_ne in Hl by assumption.
      apply Hwf in Hl. lia.
  - assert (n <> m) as Hne
      by (intros ->; apply Hm; eapply list_elem_of_lookup_2; eassumption).
    destruct (IH (S i) (assign_signal i m st) k Hnd Hwf1 Hk) as (l & Ha & Hh & Hl).
    { rewrite assign_signal_attrs_ne by assumption. assumption. }
    exists l. cbn [assign_signals]. split; [assumption|].
    split; [|lia]. rewrite Hh.
    replace (i + S k) with (S i + k) by lia. reflexivity.
Qed.

Lemma assign_signals_bound (i : nat) (ns : list string) (st : loop_state)
    (k : nat) (n : string) (l : loc) :
  NoDup ns ->
  attrs_in_heap (attrs st) (heap st) ->
  ns !! k = Some n ->
  attrs st !! n = Some l ->
  (forall j m, k < j -> ns !! j = Some m -> attrs st !! m <> Some l) ->
  attrs (assign_signals i ns st) !! n = Some l
  /\ exists s,
       heap (assign_signals i ns st) !! l = Some s
       /\ sig_index s = (Z.of_nat (i + k) + 1)%Z.
Proof.
  revert i st k. induction ns as [|m ns IH];
    intros i st k Hnd Hwf Hk Hn Hlast; [discriminate|].
  apply NoDup_cons in Hnd as [Hm Hnd].
  pose proof (assign_signal_wf i m st Hwf) as Hwf1.
  destruct k as [|k]; cbn in Hk.
  - injection Hk as ->.
    destruct (lookup_lt_is_Some_2 (heap st) l (Hwf _ _ Hn)) as [s Hs].
    destruct (assign_signal_bound i n st l s Hn Hs) as (Ha & Hh & _).
    cbn [assign_signals].
    rewrite assign_signals_attrs_notin by assumption.
    rewrite Ha. split; [assumption|].
    exists (set_index (Z.of_nat i + 1) s).
    rewrite assign_signals_heap_frame.
    + split; [assumption|]. cbn. lia.
    + apply lookup_lt_Some in Hh. assumption.
    + intros n' Hn'. rewrite Ha.
      apply list_elem_of_lookup_1 in Hn' as [j Hj].
      apply (Hlast (S j) n'); [lia | assumption].
  - assert (n <> m) as Hne
      by (intros ->; apply Hm; eapply list_elem_of_lookup_2; eassumption).
    cbn [assign_signals].
    destruct (IH (S i) (assign_signal i m st) k Hnd Hwf1 Hk) as (Ha & s & Hh & Hidx).
    { rewrite assign_signal_attrs_ne by assumption. assumption. }
    { intros j m' Hj Hm'.
      assert (m' <> m) as Hne'
        by (intros ->; apply Hm; eapply list_elem_of_lookup_2; eassumption).
      rewrite assign_signal_attrs_ne by assumption.
      apply (Hlast (S j) m'); [lia | assumption]. }
    split; [assumption|]. exists s. split; [assumption|]. lia.
Qed.

Lemma unbound_decls_ext (i : nat) (ns : list string) (a b : gmap string loc) :
  (forall n, n ∈ ns -> a !! n = b !! n) ->
  unbound_decls i ns a = unbound_decls i ns b.
Proof.
  revert i. induction ns as [|m ns IH]; intros i H; cbn; [reflexivity|].
  rewrite <- (H m) by left.
  rewrite (IH (S i)) by (intros n Hn; apply H; right; assumption).
  reflexivity.
Qed.

Lemma unbound_decls_length (i : nat) (ns : list string)
    (a : gmap string loc) :
  length (unbound_decls i ns a) <= length ns
  /\ ((exists n, n ∈ ns /\ is_Some (a !! n)) ->
      length (unbound_decls i ns a) < length ns).
Proof.
  revert i. induction ns as [|m ns IH]; intros i; cbn.
  - split; [lia|]. intros (n & Hn & _). inversion Hn.
  - destruct (IH (S i)) as [Hle Hlt].
    destruct (a !! m) as [l|] eqn:E; cbn.
    + split; [lia|]. intros _. lia.
    + split; [lia|]. intros (n & Hn & Hsome).
      apply elem_of_cons in Hn as [->|Hn].
      * rewrite E in Hsome. destruct Hsome as [? [=]].
      * assert (length (unbound_decls (S i) ns a) < length ns)
          by (apply Hlt; eauto).
        lia.
Qed.

(** The local list [signals] at the end of the loop: what it held before,
    then one new object per declared signal that had no value, in
    declaration order, each with the attribute's name and its position
    plus one. *)
Lemma assign_signals_signals (i : nat) (ns : list string) (st : loop_state) :
  NoDup ns ->
  attrs_in_heap (attrs st) (heap st) ->
  exists new,
    signals (assign_signals i ns st) = (signals st ++ new)%list
    /\ (fun l => heap (assign_signals i ns st) !! l) <$> new
       = (fun d => Some (mkSignal (snd d) (Z.of_nat (fst d) + 1)))
           <$> unbound_decls i ns (attrs st)
    /\ Forall (fun l => length (heap st) <= l) new.
Proof.
  revert i st. induction ns as [|m ns IH]; intros i st Hnd Hwf.
  - exists []. cbn. rewrite app_nil_r. auto.
  - apply NoDup_cons in Hnd as [Hm Hnd].
    pose proof (assign_signal_wf i m st Hwf) as Hwf1.
    pose proof (assign_signal_length i m st) as Hlen.
    destruct (IH (S i) (assign_signal i m st) Hnd Hwf1)
      as (new & Hsig & Hmap & Hall).
    assert (unbound_decls (S i) ns (attrs (assign_signal i m st))
            = unbound_decls (S i) ns (attrs st)) as Hext.
    { apply unbound_decls_ext. intros n Hn.
      apply assign_signal_attrs_ne. intros ->. contradiction. }
    rewrite Hext in Hmap.
    cbn [assign_signals unbound_decls].
    destruct (attrs st !! m) as [l|] eqn:E.
    + exists new. split; [|split].
      * rewrite Hsig. unfold assign_signal. rewrite E. reflexivity.
      * assumption.
      * eapply Forall_impl; [exact Hall|]. cbn. intros; lia.
    + destruct (assign_signal_unbound i m st E) as (Ha & Hh & Hs).
      exists (length (heap st) :: new). split; [|split].
      * rewrite Hsig, Hs, <- app_assoc. reflexivity.
      * cbn [fmap list_fmap fst snd]. f_equal; [|exact Hmap].
        rewrite assign_signals_heap_frame; [exact Hh | |].
        -- apply lookup_lt_Some in Hh. assumption.
        -- intros n Hn Hl.
           rewrite assign_signal_attrs_ne in Hl
             by (intros ->; contradiction).
           apply Hwf in Hl. lia.
      * constructor; [lia|].
        eapply Forall_impl; [exact Hall|]. cbn. intros; lia.
Qed.

(** What a successful decoration returns, in terms of the loop. *)
Lemma case_ok_inv (name : option string) (options : CaseOptions)
    (cls : PyClass) (rt : runtime) (c : Case) (rt' : runtime) :
  case name options cls rt = (Ok c, rt') ->
  let st :=
    assign_signals 0 (_extract_signals (cls_fields cls))
      {| heap := rt_heap rt; attrs := cls_attrs cls; signals := [] |} in
  case_cls_attrs c = attrs st
  /\ case_signals c = signals st
  /\ rt_heap rt' = heap st
  /\ cases (rt_app rt') !! case_name c = Some c.
Proof.
  unfold case.
  destruct (_prepare_case_name _ _) as [resolved|e]; [|discriminate].
  cbn. intros [= <- <-]. cbn.
  repeat split. apply lookup_insert_eq.
Qed.


(** ** The case decorator: properties *)

Lemma attrs_in_heap_decide (a : gmap string loc) (h : list Signal) :
  bool_decide (map_Forall (fun _ l => l < length h) a) = true ->
  attrs_in_heap a h.
Proof. intros H. apply bool_decide_eq_true in H. exact H. Qed.

Lemma names_distinct_decide (names : list string) :
  bool_decide (NoDup names) = true -> NoDup names.
Proof. intros H. apply bool_decide_eq_true in H. exact H. Qed.

Example extract_signals_skips_other_fields :
  _extract_signals (cls_fields plain_cls) = ["created"; "persisted"].
Proof. reflexivity. Qed.

(** C5, as stated, fails: two declared signals bound to one object end
    with one index, that of the later declaration. *)
Lemma aliased_signals_share_index :
  NoDup (_extract_signals (cls_fields aliased_cls))
  /\ attrs_in_heap (cls_attrs aliased_cls) (rt_heap aliased_rt)
  /\ ~ indices_follow_declaration aliased_cls aliased_rt.
Proof.
  split; [|split].
  - apply names_distinct_decide. vm_compute. reflexivity.
  - apply attrs_in_heap_decide. vm_compute. reflexivity.
  - intros H.
    destruct (H None default_options _ _ eq_refl 0 "sent" eq_refl)
      as (l & s & Hl & Hs & Hi).
    vm_compute in Hl. injection Hl as <-.
    vm_compute in Hs. injection Hs as <-.
    discriminate Hi.
Qed.

(** C5, amended. When no two declared signals are bound to the same
    object, a successful decoration leaves the attribute of the signal
    declared at position [i] (counting from 0) referring to an object with
    index [i + 1]: the indices are 1, 2, 3, ... in declaration order.
    (The declared names are the keys of a dict, hence distinct, and bound
    attributes refer to live objects.) *)
Theorem case_assigns_signal_indices (cls : PyClass) (rt : runtime) :
  NoDup (_extract_signals (cls_fields cls)) ->
  attrs_in_heap (cls_attrs cls) (rt_heap rt) ->
  distinct_objects (_extract_signals (cls_fields cls)) (cls_attrs cls) ->
  indices_follow_declaration cls rt.
Proof.
  intros Hnd Hwf Hdist name options c rt' Hcase i n Hi.
  destruct (case_ok_inv _ _ _ _ _ _ Hcase) as (Hattrs & _ & Hheap & _).
  rewrite Hattrs, Hheap.
  set (st0 := {| heap := rt_heap rt; attrs := cls_attrs cls; signals := [] |}).
  destruct (cls_attrs cls !! n) as [l|] eqn:E.
  - destruct (assign_signals_bound 0 _ st0 i n l Hnd Hwf Hi E)
      as (Ha & s & Hs & Hidx).
    + intros j m Hj Hm Hl.
      assert (m = n) as ->.
      { apply (Hdist m n l); try assumption;
          eapply list_elem_of_lookup_2; eassumption. }
      pose proof (NoDup_lookup _ _ _ _ Hnd Hi Hm). lia.
    + exists l, s. auto.
  - destruct (assign_signals_unbound 0 _ st0 i n Hnd Hwf Hi E)
      as (l & Ha & Hs & _).
    exists l, (mkSignal n (Z.of_nat i + 1)). auto.
Qed.

Lemma case_assigns_signal_indices_witness :
  indices_follow_declaration mixed_cls mixed_rt.
Proof.
  apply case_assigns_signal_indices.
  - apply names_distinct_decide. vm_compute. reflexivity.
  - apply attrs_in_heap_decide. vm_compute. reflexivity.
  - intros n1 n2 l H1 H2 E1 E2.
    unfold mixed_cls in E1, E2. cbn [cls_attrs] in E1, E2.
    destruct (decide (n1 = "persisted")) as [->|N1];
      [|rewrite lookup_singleton_ne in E1 by congruence; discriminate].
    destruct (decide (n2 = "persisted")) as [->|N2];
      [|rewrite lookup_singleton_ne in E2 by congruence; discriminate].
    reflexivity.
Defined.

(** C9. After a successful decoration the [signals] argument of the case
    holds exactly the objects created for the declared signals that had no
    value, in declaration order, each with its attribute's name and its
    position plus one.  A declared signal that had a value is not in the
    list: its attribute still refers to the same object, whose index has
    been set to the position plus one (and stays so unless a later
    declaration is bound to the same object).  So when some declared
    signal had a value, the list is shorter than the declaration. *)
Theorem case_signals_omit_bound (name : option string)
    (options : CaseOptions) (cls : PyClass) (rt : runtime) (c : Case)
    (rt' : runtime) :
  let names := _extract_signals (cls_fields cls) in
  NoDup names ->
  attrs_in_heap (cls_attrs cls) (rt_heap rt) ->
  case name options cls rt = (Ok c, rt') ->
  (fun l => rt_heap rt' !! l) <$> case_signals c
  = (fun d => Some (mkSignal (snd d) (Z.of_nat (fst d) + 1)))
      <$> unbound_decls 0 names (cls_attrs cls)
  /\ (forall i n l,
        names !! i = Some n ->
        cls_attrs cls !! n = Some l ->
        (l ∉ case_signals c)
        /\ case_cls_attrs c !! n = Some l
        /\ ((forall j m, i < j -> names !! j = Some m ->
               cls_attrs cls !! m <> Some l) ->
            exists s, rt_heap rt' !! l = Some s
                      /\ sig_index s = (Z.of_nat i + 1)%Z))
  /\ ((exists n, n ∈ names /\ is_Some (cls_attrs cls !! n)) ->
      length (case_signals c) < length names).
Proof.
  intros names Hnd Hwf Hcase.
  destruct (case_ok_inv _ _ _ _ _ _ Hcase) as (Hattrs & Hsigs & Hheap & _).
  fold names in Hattrs, Hsigs, Hheap.
  pose (st0 := {| heap := rt_heap rt; attrs := cls_attrs cls;
                  signals := [] |}).
  fold st0 in Hattrs, Hsigs, Hheap.
  destruct (assign_signals_signals 0 names st0 Hnd Hwf)
    as (new & Hnew & Hmap & Hall).
  assert (case_signals c = new) as Hc by (rewrite Hsigs, Hnew; reflexivity).
  split; [|split].
  - rewrite Hc, Hheap. exact Hmap.
  - intros i n l Hi E. split; [|split].
    + rewrite Hc. intros Hin.
      rewrite Forall_forall in Hall. apply Hall in Hin.
      apply Hwf in E. cbn in Hin. lia.
    + rewrite Hattrs.
      assert (forall ns k (st : loop_state), attrs st !! n = Some l ->
                attrs (assign_signals k ns st) !! n = Some l) as Hkeep.
      { induction ns as [|m ns IH]; intros k st Hst; [assumption|].
        cbn. apply IH. unfold assign_signal.
        destruct (attrs st !! m) as [l'|] eqn:Em; cbn; [assumption|].
        rewrite lookup_insert_ne; [assumption|]. intros ->. congruence. }
      apply Hkeep. exact E.
    + intros Hlast.
      destruct (assign_signals_bound 0 names st0 i n l Hnd Hwf Hi E Hlast)
        as (_ & s & Hs & Hidx).
      exists s. rewrite Hheap. auto.
  - intros Hbound.
    apply (f_equal length) in Hmap. rewrite !length_fmap in Hmap.
    rewrite Hc, Hmap.
    apply (unbound_decls_length 0 names (cls_attrs cls)). exact Hbound.
Qed.

Lemma case_signals_omit_bound_witness :
  exists c rt',
    case None default_options mixed_cls mixed_rt = (Ok c, rt')
    /\ case_name c = "pkg.mod.Orders"
    /\ (fun l => rt_heap rt' !! l) <$> case_signals c
       = [Some (mkSignal "created" 1); Some (mkSignal "shipped" 3)]
    /\ length (case_signals c) < 3.
Proof.
  eexists. eexists. split; [reflexivity|]. split; [reflexivity|].
  assert (NoDup (_extract_signals (cls_fields mixed_cls))) as Hnd
    by (apply names_distinct_decide; vm_compute; reflexivity).
  assert (attrs_in_heap (cls_attrs mixed_cls) (rt_heap mixed_rt)) as Hwf
    by (apply attrs_in_heap_decide; vm_compute; reflexivity).
  destruct (case_signals_omit_bound None default_options mixed_cls mixed_rt
              _ _ Hnd Hwf eq_refl) as (Hlist & _ & Hshort).
  split.
  - exact Hlist.
  - apply Hshort. exists "persisted". split.
    + apply list_elem_of_In. vm_compute. auto.
    + exists 0. vm_compute. reflexivity.
Defined.


(** * Further properties *)

(** ** Name resolution *)

Lemma append_cancel_l (p a b : string) : p ++ a = p ++ b -> a = b.
Proof.
  induction p as [|c p IH]; intros H; [exact H|].
  rewrite !append_cons in H. injection H as H. apply IH. exact H.
Qed.

Lemma length_append (a b : string) :
  String.length (a ++ b) = String.length a + String.length b.
Proof.
  induction a as [|c a IH]; [reflexivity|].
  rewrite append_cons. cbn [String.length]. rewrite IH. reflexivity.
Qed.

(** X1. Under one origin, two different names that start with
    [__main__.] resolve to different names: rewriting never makes two
    cases declared in the main module collide. *)
Theorem prepare_case_name_injective (origin : option string)
    (n1 n2 r1 r2 : string) :
  startswith "__main__." n1 = true ->
  startswith "__main__." n2 = true ->
  n1 <> n2 ->
  _prepare_case_name origin n1 = Ok r1 ->
  _prepare_case_name origin n2 = Ok r2 ->
  r1 <> r2.
Proof.
  intros H1 H2 Hne R1 R2 Heq. apply Hne. subst r2.
  destruct (startswith_inv _ _ H1) as [t1 ->].
  destruct (startswith_inv _ _ H2) as [t2 ->].
  unfold _prepare_case_name in R1, R2. rewrite H1 in R1. rewrite H2 in R2.
  destruct origin as [[|c o]|]; try discriminate.
  change (slice_from 8 ("__main__." ++ t1)) with (String "." t1) in R1.
  change (slice_from 8 ("__main__." ++ t2)) with (String "." t2) in R2.
  injection R1 as R1. injection R2 as R2.
  rewrite <- R2 in R1. apply append_cancel_l in R1.
  injection R1 as ->. reflexivity.
Qed.

Lemma prepare_case_name_injective_witness :
  "pkg.mod.Foo" <> "pkg.mod.Bar".
Proof.
  apply (prepare_case_name_injective (Some "pkg.mod") "__main__.Foo"
           "__main__.Bar"); try reflexivity.
  discriminate.
Defined.

(** X2. When the origin does not start with [__main__], a resolved name
    never starts with [__main__.]: no placeholder name comes out of
    resolution. *)
Theorem resolved_name_not_placeholder (origin : option string)
    (name r : string) :
  (forall o, origin = Some o -> startswith "__main__" o = false) ->
  _prepare_case_name origin name = Ok r ->
  startswith "__main__." r = false.
Proof.
  intros Ho Hr. unfold _prepare_case_name in Hr.
  destruct (startswith "__main__." name) eqn:Hn.
  - destruct (startswith_inv _ _ Hn) as [t ->].
    destruct origin as [[|c o]|]; try discriminate.
    change (slice_from 8 ("__main__." ++ t)) with (String "." t) in Hr.
    injection Hr as <-.
    exact (startswith_after_sep "." "__main__" "." (String c o) t
             eq_refl (Ho _ eq_refl)).
  - injection Hr as <-. exact Hn.
Qed.

Lemma resolved_name_not_placeholder_witness :
  startswith "__main__." "pkg.mod.Foo" = false.
Proof.
  apply (resolved_name_not_placeholder (Some "pkg.mod") "__main__.Foo").
  - intros o [= <-]. reflexivity.
  - reflexivity.
Defined.

Lemma append_assoc (a b c : string) : (a ++ b) ++ c = a ++ (b ++ c).
Proof.
  induction a as [|x a IH]; [reflexivity|].
  rewrite !append_cons, IH. reflexivity.
Qed.

Lemma prepare_placeholder (o t : string) :
  o <> "" ->
  _prepare_case_name (Some o) ("__main__." ++ t) = Ok (o ++ String "." t).
Proof. intros H. destruct o as [|c o]; [congruence | reflexivity]. Qed.

(** X3. When the origin itself starts with [__main__.], a rewritten name
    is a placeholder name again: resolving it once more succeeds and gives
    a different, longer name. *)
Theorem placeholder_origin_rewrites_again (o name r : string) :
  startswith "__main__." name = true ->
  _prepare_case_name (Some ("__main__." ++ o)) name = Ok r ->
  exists r',
    _prepare_case_name (Some ("__main__." ++ o)) r = Ok r'
    /\ String.length r' = String.length r + String.length o + 1
    /\ r' <> r.
Proof.
  intros Hn Hr.
  destruct (startswith_inv _ _ Hn) as [t ->].
  assert ("__main__." ++ o <> "") as Hne by discriminate.
  rewrite (prepare_placeholder _ t Hne) in Hr.
  assert (r = ("__main__." ++ o) ++ String "." t) as -> by congruence.
  exists (("__main__." ++ o) ++ String "." (o ++ String "." t)).
  assert (String.length (("__main__." ++ o) ++ String "." (o ++ String "." t))
          = String.length (("__main__." ++ o) ++ String "." t)
            + String.length o + 1) as Hlen.
  { rewrite !length_append. cbn [String.length].
    rewrite !length_append. cbn [String.length]. lia. }
  split; [|split; [exact Hlen|]].
  - rewrite (append_assoc "__main__." o (String "." t)).
    apply prepare_placeholder. exact Hne.
  - intros Heq. rewrite Heq in Hlen. lia.
Qed.

Lemma placeholder_origin_rewrites_again_witness :
  exists r',
    _prepare_case_name (Some "__main__.tests") "__main__.tests.Foo" = Ok r'
    /\ String.length r' = String.length "__main__.tests.Foo" + 5 + 1
    /\ r' <> "__main__.tests.Foo".
Proof.
  apply (placeholder_origin_rewrites_again "tests" "__main__.Foo"
           "__main__.tests.Foo"); reflexivity.
Defined.

(** ** Signal extraction *)

(** X4. [_extract_signals] yields a name exactly when a field of that
    name has an annotation whose actual type is a subclass of
    [BaseSignal]; annotations that are not classes are passed over. *)
Theorem extract_signals_spec (fields : list (string * annotation))
    (n : string) :
  n ∈ _extract_signals fields
  <-> exists ann,
        (n, ann) ∈ fields
        /\ issubclass_BaseSignal (actual_type ann) = Some true.
Proof.
  induction fields as [|[m a] fields IH]; cbn [_extract_signals].
  - split; [intros H; inversion H | intros (ann & H & _); inversion H].
  - destruct (issubclass_BaseSignal (actual_type a)) as [[|]|] eqn:E.
    + rewrite elem_of_cons, IH. split.
      * intros [->|(ann & Hin & Hs)].
        -- exists a. split; [left | exact E].
        -- exists ann. split; [right; exact Hin | exact Hs].
      * intros (ann & Hin & Hs). apply elem_of_cons in Hin as [[= -> ->]|Hin].
        -- left. reflexivity.
        -- right. exists ann. auto.
    + rewrite IH. split.
      * intros (ann & Hin & Hs). exists ann. split; [right; exact Hin | exact Hs].
      * intros (ann & Hin & Hs). apply elem_of_cons in Hin as [[= -> ->]|Hin].
        -- congruence.
        -- exists ann. auto.
    + rewrite IH. split.
      * intros (ann & Hin & Hs). exists ann. split; [right; exact Hin | exact Hs].
      * intros (ann & Hin & Hs). apply elem_of_cons in Hin as [[= -> ->]|Hin].
        -- congruence.
        -- exists ann. auto.
Qed.

Lemma extract_signals_sub (fields : list (string * annotation)) :
  sublist (_extract_signals fields) (fields.*1).
Proof.
  induction fields as [|[m a] fields IH]; cbn [_extract_signals fmap list_fmap];
    [constructor|].
  destruct (issubclass_BaseSignal (actual_type a)) as [[|]|];
    [apply sublist_skip | apply sublist_cons | apply sublist_cons]; exact IH.
Qed.

Lemma extract_signals_NoDup (fields : list (string * annotation)) :
  NoDup (fields.*1) -> NoDup (_extract_signals fields).
Proof.
  intros H. exact (sublist_NoDup _ _ H (extract_signals_sub fields)).
Qed.

(** X5. The field names being the keys of a dict, hence distinct, the
    yielded names are distinct too, and they come out in field order: the
    result is a subsequence of the field names. *)
Theorem extract_signals_distinct_ordered
    (fields : list (string * annotation)) :
  NoDup (fields.*1) ->
  NoDup (_extract_signals fields)
  /\ sublist (_extract_signals fields) (fields.*1).
Proof.
  intros H. split; [apply extract_signals_NoDup; exact H|].
  apply extract_signals_sub.
Qed.

Lemma extract_signals_distinct_ordered_witness :
  NoDup (_extract_signals (cls_fields plain_cls))
  /\ sublist (_extract_signals (cls_fields plain_cls))
       ((cls_fields plain_cls).*1).
Proof.
  apply extract_signals_distinct_ordered.
  apply names_distinct_decide. vm_compute. reflexivity.
Defined.


(** ** The case decorator, continued *)

Lemma case_heap (name : option string) (options : CaseOptions)
    (cls : PyClass) (rt : runtime) :
  rt_heap (snd (case name options cls rt))
  = heap (assign_signals 0 (_extract_signals (cls_fields cls))
            {| heap := rt_heap rt; attrs := cls_attrs cls; signals := [] |}).
Proof.
  unfold case. destruct (_prepare_case_name _ _); reflexivity.
Qed.

Lemma assign_signals_wf (i : nat) (ns : list string) (st : loop_state) :
  attrs_in_heap (attrs st) (heap st) ->
  attrs_in_heap (attrs (assign_signals i ns st))
    (heap (assign_signals i ns st)).
Proof.
  revert i st. induction ns as [|m ns IH]; intros i st Hwf; [exact Hwf|].
  cbn [assign_signals]. apply IH, assign_signal_wf, Hwf.
Qed.

(** An object keeps its name through the loop. *)
Lemma assign_signals_name_kept (i : nat) (ns : list string)
    (st : loop_state) (l : loc) (s : Signal) :
  heap st !! l = Some s ->
  exists s', heap (assign_signals i ns st) !! l = Some s'
             /\ sig_name s' = sig_name s.
Proof.
  revert i st s. induction ns as [|m ns IH]; intros i st s Hs.
  - exists s. auto.
  - cbn [assign_signals].
    assert (exists s1, heap (assign_signal i m st) !! l = Some s1
                       /\ sig_name s1 = sig_name s) as (s1 & Hs1 & Hn1).
    { unfold assign_signal. destruct (attrs st !! m) as [l'|]; cbn [heap].
      - destruct (decide (l' = l)) as [->|Hne].
        + rewrite list_lookup_alter_eq, Hs. eexists. split; reflexivity.
        + rewrite list_lookup_alter_ne by assumption. eauto.
      - exists s. split; [|reflexivity].
        apply lookup_app_l_Some. exact Hs. }
    destruct (IH (S i) _ s1 Hs1) as (s' & Hs' & Hn').
    exists s'. split; [exact Hs' | congruence].
Qed.

(** An attribute that has a value keeps it through the loop. *)
Lemma assign_signals_bound_kept (i : nat) (ns : list string)
    (st : loop_state) (n : string) (l : loc) :
  attrs st !! n = Some l ->
  attrs (assign_signals i ns st) !! n = Some l.
Proof.
  revert i st. induction ns as [|m ns IH]; intros i st Hst; [exact Hst|].
  cbn [assign_signals]. apply IH. unfold assign_signal.
  destruct (attrs st !! m) as [l'|] eqn:Em; cbn [attrs]; [exact Hst|].
  rewrite lookup_insert_ne; [exact Hst|]. intros ->. congruence.
Qed.

(** Every attribute the loop visits has a value afterwards. *)
Lemma assign_signals_binds (i : nat) (ns : list string) (st : loop_state)
    (n : string) :
  n ∈ ns -> is_Some (attrs (assign_signals i ns st) !! n).
Proof.
  revert i st. induction ns as [|m ns IH]; intros i st Hn; [inversion Hn|].
  cbn [assign_signals].
  destruct (decide (n = m)) as [->|Hne].
  - assert (is_Some (attrs (assign_signal i m st) !! m)) as [l Hl].
    { unfold assign_signal. destruct (attrs st !! m) as [l'|] eqn:Em;
        cbn [attrs]; [rewrite Em; eauto|].
      rewrite lookup_insert_eq. eauto. }
    exists l. apply assign_signals_bound_kept. exact Hl.
  - apply IH. apply elem_of_cons in Hn as [?|Hn]; [contradiction | exact Hn].
Qed.

(** X6. A successful decoration registers the case it returns under the
    resolved form of [name or qualname(cls)], with the options it was
    given; every other registry entry, the reports and the origin setting
    are as before. *)
Theorem case_registers_under_resolved_name (name : option string)
    (options : CaseOptions) (cls : PyClass) (rt : runtime) (c : Case)
    (rt' : runtime) :
  case name options cls rt = (Ok c, rt') ->
  _prepare_case_name (conf_origin (rt_app rt))
    (str_or name (cls_qualname cls)) = Ok (case_name c)
  /\ cases (rt_app rt') !! case_name c = Some c
  /\ (forall other, other <> case_name c ->
        cases (rt_app rt') !! other = cases (rt_app rt) !! other)
  /\ case_options c = options
  /\ conf_origin (rt_app rt') = conf_origin (rt_app rt)
  /\ reports (rt_app rt') = reports (rt_app rt).
Proof.
  unfold case.
  destruct (_prepare_case_name _ _) as [resolved|e]; [|discriminate].
  cbn. intros [= <- <-]. cbn.
  split; [reflexivity|]. split; [apply lookup_insert_eq|].
  split; [|auto]. intros other Hne. apply lookup_insert_ne. congruence.
Qed.

Lemma case_registers_under_resolved_name_witness :
  exists c rt',
    case None default_options plain_cls plain_rt = (Ok c, rt')
    /\ case_name c = "pkg.mod.Orders"
    /\ cases (rt_app rt') !! "pkg.mod.Orders" = Some c.
Proof.
  eexists. eexists. split; [reflexivity|]. split; [reflexivity|].
  exact (proj1 (proj2 (case_registers_under_resolved_name None
                         default_options plain_cls plain_rt _ _ eq_refl))).
Defined.

(** X7. When [name or qualname(cls)] starts with [__main__.] and the
    application has no origin, or an empty one, the decorator raises the
    [RuntimeError] of name resolution: no case is registered and the
    application is as it was. *)
Theorem case_without_origin_registers_nothing (name : option string)
    (options : CaseOptions) (cls : PyClass) (rt : runtime) :
  startswith "__main__." (str_or name (cls_qualname cls)) = true ->
  str_truthy (conf_origin (rt_app rt)) = false ->
  fst (case name options cls rt)
  = Raise (RuntimeError "LiveCheck app missing origin argument")
  /\ rt_app (snd (case name options cls rt)) = rt_app rt.
Proof.
  unfold case, _prepare_case_name. intros Hp Ho. rewrite Hp.
  destruct (conf_origin (rt_app rt)) as [[|ch o]|]; try discriminate;
    split; reflexivity.
Qed.

Lemma case_without_origin_registers_nothing_witness :
  fst (case None default_options mixed_cls no_origin_rt)
  = Raise (RuntimeError "LiveCheck app missing origin argument")
  /\ rt_app (snd (case None default_options mixed_cls no_origin_rt))
     = no_origin_app.
Proof.
  apply (case_without_origin_registers_nothing None default_options
           mixed_cls no_origin_rt); reflexivity.
Defined.

(** X8. The signal loop runs before the name is resolved: whether the
    decoration then succeeds or raises, the index of a declared signal
    that already had a value has been rewritten to its position plus
    one. *)
Theorem decoration_writes_index_before_resolving (name : option string)
    (options : CaseOptions) (cls : PyClass) (rt : runtime)
    (i : nat) (n : string) (l : loc) :
  let names := _extract_signals (cls_fields cls) in
  NoDup names ->
  attrs_in_heap (cls_attrs cls) (rt_heap rt) ->
  names !! i = Some n ->
  cls_attrs cls !! n = Some l ->
  (forall j m, i < j -> names !! j = Some m -> cls_attrs cls !! m <> Some l) ->
  exists s,
    rt_heap (snd (case name options cls rt)) !! l = Some s
    /\ sig_index s = (Z.of_nat i + 1)%Z.
Proof.
  intros names Hnd Hwf Hi Hn Hlast. rewrite case_heap.
  destruct (assign_signals_bound 0 names
              {| heap := rt_heap rt; attrs := cls_attrs cls; signals := [] |}
              i n l Hnd Hwf Hi Hn Hlast) as (_ & s & Hs & Hidx).
  exists s. auto.
Qed.

Lemma decoration_writes_index_before_resolving_witness :
  fst (case None default_options mixed_cls no_origin_rt)
  = Raise (RuntimeError "LiveCheck app missing origin argument")
  /\ exists s,
       rt_heap (snd (case None default_options mixed_cls no_origin_rt)) !! 0
       = Some s
       /\ sig_index s = 2%Z.
Proof.
  split; [reflexivity|].
  apply (decoration_writes_index_before_resolving None default_options
           mixed_cls no_origin_rt 1 "persisted" 0).
  - apply names_distinct_decide. vm_compute. reflexivity.
  - apply attrs_in_heap_decide. vm_compute. reflexivity.
  - reflexivity.
  - vm_compute. reflexivity.
  - intros j m Hj Hm Hl.
    destruct j as [|[|[|j]]]; try lia; vm_compute in Hm; try discriminate.
    injection Hm as <-. vm_compute in Hl. discriminate.
Defined.

(** X9. Decoration never renames a signal object and never removes one;
    and an object that no declared signal attribute refers to is left
    exactly as it was. *)
Theorem case_keeps_other_signals (name : option string)
    (options : CaseOptions) (cls : PyClass) (rt : runtime) (l : loc)
    (s : Signal) :
  rt_heap rt !! l = Some s ->
  exists s',
    rt_heap (snd (case name options cls rt)) !! l = Some s'
    /\ sig_name s' = sig_name s
    /\ ((forall n, n ∈ _extract_signals (cls_fields cls) ->
           cls_attrs cls !! n <> Some l) ->
        s' = s).
Proof.
  intros Hs. rewrite case_heap.
  set (st0 := {| heap := rt_heap rt; attrs := cls_attrs cls; signals := [] |}).
  destruct (assign_signals_name_kept 0 (_extract_signals (cls_fields cls))
              st0 l s Hs) as (s' & Hs' & Hname).
  exists s'. split; [exact Hs'|]. split; [exact Hname|].
  intros Hfree.
  rewrite (assign_signals_heap_frame 0 _ st0 l) in Hs'.
  - cbn in Hs'. congruence.
  - apply lookup_lt_Some in Hs. exact Hs.
  - exact Hfree.
Qed.

Lemma case_keeps_other_signals_witness :
  exists s',
    rt_heap (snd (case None default_options plain_cls mixed_rt)) !! 0
    = Some s'
    /\ sig_name s' = "persisted"
    /\ s' = mkSignal "persisted" (-1).
Proof.
  destruct (case_keeps_other_signals None default_options plain_cls mixed_rt
              0 (mkSignal "persisted" (-1)) eq_refl) as (s' & Hs & Hn & Hsame).
  exists s'. split; [exact Hs|]. split; [exact Hn|].
  apply Hsame. intros n _. unfold plain_cls. cbn [cls_attrs].
  rewrite lookup_empty. discriminate.
Defined.

(** X10. After a successful decoration every declared signal attribute
    of the case's class has a value, every attribute refers to a live
    object, an attribute that had a value still has that value, and
    attributes that are not declared signals are as before. *)
Theorem case_binds_declared_signals (name : option string)
    (options : CaseOptions) (cls : PyClass) (rt : runtime) (c : Case)
    (rt' : runtime) :
  attrs_in_heap (cls_attrs cls) (rt_heap rt) ->
  case name options cls rt = (Ok c, rt') ->
  attrs_in_heap (case_cls_attrs c) (rt_heap rt')
  /\ (forall n, n ∈ _extract_signals (cls_fields cls) ->
        is_Some (case_cls_attrs c !! n))
  /\ (forall n l, cls_attrs cls !! n = Some l ->
        case_cls_attrs c !! n = Some l)
  /\ (forall n, n ∉ _extract_signals (cls_fields cls) ->
        case_cls_attrs c !! n = cls_attrs cls !! n).
Proof.
  intros Hwf Hcase.
  destruct (case_ok_inv _ _ _ _ _ _ Hcase) as (Hattrs & _ & Hheap & _).
  rewrite Hattrs, Hheap.
  set (st0 := {| heap := rt_heap rt; attrs := cls_attrs cls; signals := [] |}).
  split; [|split; [|split]].
  - apply assign_signals_wf. exact Hwf.
  - intros n Hn. apply assign_signals_binds. exact Hn.
  - intros n l Hn. apply assign_signals_bound_kept. exact Hn.
  - intros n Hn. apply (assign_signals_attrs_notin 0 _ n st0). exact Hn.
Qed.

Lemma case_binds_declared_signals_witness :
  exists c rt',
    case None default_options mixed_cls mixed_rt = (Ok c, rt')
    /\ attrs_in_heap (case_cls_attrs c) (rt_heap rt')
    /\ is_Some (case_cls_attrs c !! "shipped")
    /\ case_cls_attrs c !! "persisted" = Some 0.
Proof.
  eexists. eexists. split; [reflexivity|].
  assert (attrs_in_heap (cls_attrs mixed_cls) (rt_heap mixed_rt)) as Hwf0
    by (apply attrs_in_heap_decide; vm_compute; reflexivity).
  destruct (case_binds_declared_signals None default_options mixed_cls
              mixed_rt _ _ Hwf0 eq_refl)
    as (Hwf & Hall & Hkept & _).
  split; [exact Hwf|]. split.
  - apply Hall. apply list_elem_of_In. vm_compute. auto.
  - apply Hkept. vm_compute. reflexivity.
Defined.

Lemma unbound_decls_all (i : nat) (ns : list string) (a : gmap string loc) :
  (forall n, n ∈ ns -> a !! n = None) ->
  unbound_decls i ns a = imap (fun j n => (i + j, n)) ns.
Proof.
  revert i. induction ns as [|m ns IH]; intros i H; [reflexivity|].
  cbn [unbound_decls imap]. rewrite (H m) by left.
  rewrite (IH (S i)) by (intros n Hn; apply H; right; exact Hn).
  rewrite Nat.add_0_r. f_equal.
  apply imap_ext. intros j n _. cbn. f_equal. lia.
Qed.

Lemma unbound_decls_bounds (i : nat) (ns : list string)
    (a : gmap string loc) (j : nat) (d : nat * string) :
  unbound_decls i ns a !! j = Some d ->
  i + j <= fst d < i + length ns.
Proof.
  revert i j. induction ns as [|m ns IH]; intros i j H; [discriminate|].
  cbn [unbound_decls] in H. cbn [length].
  destruct (a !! m).
  - apply IH in H. lia.
  - destruct j as [|j]; cbn in H.
    + injection H as <-. cbn. lia.
    + apply IH in H. lia.
Qed.

Lemma unbound_decls_increasing (i : nat) (ns : list string)
    (a : gmap string loc) (j1 j2 : nat) (d1 d2 : nat * string) :
  j1 < j2 ->
  unbound_decls i ns a !! j1 = Some d1 ->
  unbound_decls i ns a !! j2 = Some d2 ->
  fst d1 < fst d2.
Proof.
  intros Hj H1 H2.
  apply unbound_decls_bounds in H2 as Hb2.
  revert i j1 j2 Hj H1 H2 Hb2.
  induction ns as [|m ns IH]; intros i j1 j2 Hj H1 H2 Hb2; [discriminate|].
  cbn [unbound_decls] in H1, H2.
  destruct (a !! m).
  - apply unbound_decls_bounds in H2 as Hb. eapply IH; eauto.
  - destruct j2 as [|j2]; [lia|]. cbn in H2.
    apply unbound_decls_bounds in H2 as Hb.
    destruct j1 as [|j1]; cbn in H1.
    + injection H1 as <-. cbn. lia.
    + eapply (IH (S i) j1 j2); eauto. lia.
Qed.

(** X11. When none of the declared signals has a value, which is how a
    case is normally written, the [signals] argument holds one new signal
    per declared name, in declaration order, numbered 1, 2, 3, ... *)
Theorem case_fresh_signals_numbered (name : option string)
    (options : CaseOptions) (cls : PyClass) (rt : runtime) (c : Case)
    (rt' : runtime) :
  let names := _extract_signals (cls_fields cls) in
  NoDup names ->
  attrs_in_heap (cls_attrs cls) (rt_heap rt) ->
  (forall n, n ∈ names -> cls_attrs cls !! n = None) ->
  case name options cls rt = (Ok c, rt') ->
  (fun l => rt_heap rt' !! l) <$> case_signals c
  = imap (fun i n => Some (mkSignal n (Z.of_nat i + 1))) names.
Proof.
  intros names Hnd Hwf Hfree Hcase.
  destruct (case_ok_inv _ _ _ _ _ _ Hcase) as (_ & Hsigs & Hheap & _).
  fold names in Hsigs, Hheap.
  pose (st0 := {| heap := rt_heap rt; attrs := cls_attrs cls;
                  signals := [] |}).
  fold st0 in Hsigs, Hheap.
  destruct (assign_signals_signals 0 names st0 Hnd Hwf)
    as (new & Hnew & Hmap & _).
  assert (case_signals c = new) as -> by (rewrite Hsigs, Hnew; reflexivity).
  rewrite Hheap, Hmap. cbn [attrs st0].
  rewrite (unbound_decls_all 0 names (cls_attrs cls) Hfree).
  rewrite fmap_imap. apply imap_ext. intros i n _. reflexivity.
Qed.

Lemma case_fresh_signals_numbered_witness :
  exists c rt',
    case None default_options plain_cls plain_rt = (Ok c, rt')
    /\ (fun l => rt_heap rt' !! l) <$> case_signals c
       = [Some (mkSignal "created" 1); Some (mkSignal "persisted" 2)].
Proof.
  eexists. eexists. split; [reflexivity|].
  apply (case_fresh_signals_numbered None default_options plain_cls plain_rt).
  - apply names_distinct_decide. vm_compute. reflexivity.
  - apply attrs_in_heap_decide. vm_compute. reflexivity.
  - intros n _. unfold plain_cls. cbn [cls_attrs]. apply lookup_empty.
  - reflexivity.
Defined.

(** X12. Whatever values the declared signals had, every signal handed
    to the case constructor is a live object with an index between 1 and
    the number of declared signals, and along the list the indices are
    strictly increasing. *)
Theorem case_signals_indices_increase (name : option string)
    (options : CaseOptions) (cls : PyClass) (rt : runtime) (c : Case)
    (rt' : runtime) :
  let names := _extract_signals (cls_fields cls) in
  NoDup names ->
  attrs_in_heap (cls_attrs cls) (rt_heap rt) ->
  case name options cls rt = (Ok c, rt') ->
  (forall j l,
     case_signals c !! j = Some l ->
     exists s,
       rt_heap rt' !! l = Some s
       /\ (1 <= sig_index s <= Z.of_nat (length names))%Z)
  /\ (forall j1 j2 l1 l2 s1 s2,
        j1 < j2 ->
        case_signals c !! j1 = Some l1 ->
        case_signals c !! j2 = Some l2 ->
        rt_heap rt' !! l1 = Some s1 ->
        rt_heap rt' !! l2 = Some s2 ->
        (sig_index s1 < sig_index s2)%Z).
Proof.
  intros names Hnd Hwf Hcase.
  destruct (case_ok_inv _ _ _ _ _ _ Hcase) as (_ & Hsigs & Hheap & _).
  fold names in Hsigs, Hheap.
  pose (st0 := {| heap := rt_heap rt; attrs := cls_attrs cls;
                  signals := [] |}).
  fold st0 in Hsigs, Hheap.
  destruct (assign_signals_signals 0 names st0 Hnd Hwf)
    as (new & Hnew & Hmap & _).
  assert (case_signals c = new) as Hc by (rewrite Hsigs, Hnew; reflexivity).
  rewrite Hc. rewrite <- Hheap in Hmap.
  assert (forall j l, new !! j = Some l ->
            exists d, unbound_decls 0 names (attrs st0) !! j = Some d
                      /\ rt_heap rt' !! l
                         = Some (mkSignal (snd d) (Z.of_nat (fst d) + 1)))
    as Hd.
  { intros j l Hl.
    pose proof (f_equal (fun x => x !! j) Hmap) as E. cbn beta in E.
    rewrite !list_lookup_fmap, Hl in E.
    destruct (unbound_decls 0 names (attrs st0) !! j) as [d|];
      cbn [fmap option_fmap option_map] in E; [|discriminate].
    exists d. split; [reflexivity|]. congruence. }
  split.
  - intros j l Hl. destruct (Hd j l Hl) as (d & Hdj & Hs).
    eexists. split; [exact Hs|]. cbn [sig_index].
    pose proof (unbound_decls_bounds 0 names _ j d Hdj). lia.
  - intros j1 j2 l1 l2 s1 s2 Hj H1 H2 Hs1 Hs2.
    destruct (Hd _ _ H1) as (d1 & Hd1 & E1).
    destruct (Hd _ _ H2) as (d2 & Hd2 & E2).
    assert (s1 = mkSignal (snd d1) (Z.of_nat (fst d1) + 1)) as ->
      by congruence.
    assert (s2 = mkSignal (snd d2) (Z.of_nat (fst d2) + 1)) as ->
      by congruence.
    pose proof (unbound_decls_increasing 0 names _ j1 j2 d1 d2 Hj Hd1 Hd2).
    cbn [sig_index]. lia.
Qed.

Lemma case_signals_indices_increase_witness :
  exists c rt',
    case None default_options mixed_cls mixed_rt = (Ok c, rt')
    /\ case_signals c = [1; 2]
    /\ (exists s, rt_heap rt' !! 2 = Some s
                  /\ (1 <= sig_index s <= 3)%Z)
    /\ (forall s1 s2,
          rt_heap rt' !! 1 = Some s1 -> rt_heap rt' !! 2 = Some s2 ->
          (sig_index s1 < sig_index s2)%Z).
Proof.
  eexists. eexists. split; [reflexivity|]. split; [reflexivity|].
  assert (NoDup (_extract_signals (cls_fields mixed_cls))) as Hnd
    by (apply names_distinct_decide; vm_compute; reflexivity).
  assert (attrs_in_heap (cls_attrs mixed_cls) (rt_heap mixed_rt)) as Hwf
    by (apply attrs_in_heap_decide; vm_compute; reflexivity).
  destruct (case_signals_indices_increase None default_options mixed_cls
              mixed_rt _ _ Hnd Hwf eq_refl) as [Hbound Hinc].
  split.
  - apply (Hbound 1 2). reflexivity.
  - intros s1 s2 H1 H2.
    apply (Hinc 0 1 1 2 s1 s2); [lia | reflexivity | reflexivity | | ];
      assumption.
Defined.

(** ** Registry, continued *)

(** X13. Registrations under different names commute, registering the
    same case twice is registering it once, and a registration adds its
    name, and only its name, to the registered names. *)
Theorem add_case_commutes (app : LiveCheck) (c1 c2 : Case) :
  case_name c1 <> case_name c2 ->
  snd (add_case c2 (snd (add_case c1 app)))
  = snd (add_case c1 (snd (add_case c2 app)))
  /\ snd (add_case c1 (snd (add_case c1 app))) = snd (add_case c1 app)
  /\ dom (cases (snd (add_case c1 app))) = {[case_name c1]} ∪ dom (cases app).
Proof.
  intros Hne. unfold add_case, with_cases. cbn.
  split; [|split].
  - f_equal. apply insert_insert_ne. congruence.
  - f_equal. apply insert_insert_eq.
  - apply dom_insert_L.
Qed.

Lemma add_case_commutes_witness :
  snd (add_case invoices_v1 (snd (add_case orders_v1 sample_app)))
  = snd (add_case orders_v1 (snd (add_case invoices_v1 sample_app))).
Proof.
  apply (add_case_commutes sample_app orders_v1 invoices_v1). discriminate.
Defined.

(** ** Report publication, continued *)

Lemma post_reports_reports (rs : list TestReport) (app : LiveCheck) :
  reports (post_reports rs app)
  = (reports app ++ map (fun r => (report_key r, r)) rs)%list.
Proof.
  revert app. induction rs as [|r rs IH]; intros app.
  - cbn. rewrite app_nil_r. reflexivity.
  - unfold post_reports in *. cbn [fold_left]. rewrite IH.
    cbn. rewrite <- app_assoc. reflexivity.
Qed.

(** X14. Reports posted one after another reach the report topic in the
    order posted, after what was there, each under its own key, none
    dropped, merged or repeated; the registry is not touched. *)
Theorem post_reports_in_order (rs : list TestReport) (app : LiveCheck) :
  reports (post_reports rs app)
  = (reports app ++ map (fun r => (report_key r, r)) rs)%list
  /\ length (reports (post_reports rs app))
     = length (reports app) + length rs
  /\ cases (post_reports rs app) = cases app.
Proof.
  split; [apply post_reports_reports|]. split.
  - rewrite post_reports_reports, length_app, length_map. reflexivity.
  - revert app. induction rs as [|r rs IH]; intros app; [reflexivity|].
    unfold post_reports in *. cbn [fold_left]. rewrite IH. reflexivity.
Qed.

(** ** Produce hook, continued *)

(** X15. The hook does not look at what the header list holds: run
    twice on the same list while a test is current, it appends the test's
    headers twice, and each run lengthens the list by the number of items
    of [as_headers()]. *)
Theorem produce_hook_appends_each_time {V B : Type}
    (as_headers : TestExecution -> list (string * V))
    (want_bytes : V -> B) (stack : list TestExecution)
    (test : TestExecution) (hs : list (string * B)) :
  current_test stack = Some test ->
  exists hs1 hs2,
    on_produce_attach_test_headers as_headers want_bytes stack (Some hs)
    = Ok (Some hs1)
    /\ on_produce_attach_test_headers as_headers want_bytes stack (Some hs1)
       = Ok (Some hs2)
    /\ length hs1 = length hs + length (as_headers test)
    /\ length hs2 = length hs + 2 * length (as_headers test)
    /\ hs2 = (hs1 ++ drop (length hs) hs1)%list.
Proof.
  intros H. unfold on_produce_attach_test_headers. rewrite H.
  eexists. eexists. split; [reflexivity|]. split; [reflexivity|].
  rewrite !length_app, !length_map.
  split; [reflexivity|]. split; [lia|].
  rewrite drop_app_length. reflexivity.
Qed.

Lemma produce_hook_appends_each_time_witness :
  exists hs1 hs2,
    on_produce_attach_test_headers sample_as_headers list_byte_of_string
      [sample_test] (Some []) = Ok (Some hs1)
    /\ on_produce_attach_test_headers sample_as_headers list_byte_of_string
         [sample_test] (Some hs1) = Ok (Some hs2)
    /\ length hs1 = 0 + 2
    /\ length hs2 = 0 + 2 * 2
    /\ hs2 = (hs1 ++ drop 0 hs1)%list.
Proof.
  exact (produce_hook_appends_each_time sample_as_headers
           list_byte_of_string [sample_test] sample_test [] eq_refl).
Defined.


(** ** Agent loops, continued *)

Section AgentLoopErrors.
Context {W : Type}.
Variable execute :
  Case -> TestExecution -> agent_state W -> outcome unit * agent_state W.
Variable resolve_signal :
  Case -> string -> SignalEvent -> agent_state W ->
  outcome unit * agent_state W.

(** X16. An exception of [case.execute] that is not a [LiveCheckError]
    is not caught: the test loop ends with it, in the state the execution
    left, and the requests that follow are not read. *)
Theorem execute_tests_other_error_stops
    (pre rest : list (string * TestExecution)) (id : string)
    (test : TestExecution) (st0 st st' : agent_state W)
    (resolved : string) (c : Case) (e : exn) :
  _execute_tests execute pre st0 = (Ok tt, st) ->
  _prepare_case_name (conf_origin (fst st)) (test_case_name test)
    = Ok resolved ->
  cases (fst st) !! resolved = Some c ->
  execute c (set_test_case_name resolved test) st = (Raise e, st') ->
  is_LiveCheckError e = false ->
  _execute_tests execute (pre ++ (id, test) :: rest)%list st0
  = (Raise e, st').
Proof.
  intros Hpre Hname Hcase Hexec Herr.
  rewrite execute_tests_app, Hpre.
  cbn [_execute_tests]. rewrite Hname. cbn [test_case_name set_test_case_name].
  rewrite Hcase, Hexec, Herr. reflexivity.
Qed.

(** X17. The bus loop has no [try]: any exception of
    [case.resolve_signal], a [LiveCheckError] included, ends it, and the
    events that follow are not read. *)
Theorem populate_signals_any_error_stops
    (pre rest : list (string * SignalEvent)) (id : string)
    (event : SignalEvent) (st0 st st' : agent_state W)
    (resolved : string) (c : Case) (e : exn) :
  _populate_signals resolve_signal pre st0 = (Ok tt, st) ->
  _prepare_case_name (conf_origin (fst st)) (event_case_name event)
    = Ok resolved ->
  cases (fst st) !! resolved = Some c ->
  resolve_signal c id (set_event_case_name resolved event) st
    = (Raise e, st') ->
  _populate_signals resolve_signal (pre ++ (id, event) :: rest)%list st0
  = (Raise e, st').
Proof.
  intros Hpre Hname Hcase Hres.
  rewrite populate_signals_app, Hpre.
  cbn [_populate_signals]. rewrite Hname.
  cbn [event_case_name set_event_case_name].
  rewrite Hcase, Hres. reflexivity.
Qed.

(** X18. A message naming a case by a [__main__.] name, met when the
    application has no origin, ends either loop with the [RuntimeError] of
    name resolution: the collaborator is not called and the messages that
    follow are not read. *)
Theorem placeholder_without_origin_stops_loops :
  (forall (pre rest : list (string * TestExecution)) (id : string)
          (test : TestExecution) (st0 st : agent_state W),
     _execute_tests execute pre st0 = (Ok tt, st) ->
     startswith "__main__." (test_case_name test) = true ->
     str_truthy (conf_origin (fst st)) = false ->
     _execute_tests execute (pre ++ (id, test) :: rest)%list st0
     = (Raise (RuntimeError "LiveCheck app missing origin argument"), st))
  /\ (forall (pre rest : list (string * SignalEvent)) (id : string)
             (event : SignalEvent) (st0 st : agent_state W),
        _populate_signals resolve_signal pre st0 = (Ok tt, st) ->
        startswith "__main__." (event_case_name event) = true ->
        str_truthy (conf_origin (fst st)) = false ->
        _populate_signals resolve_signal (pre ++ (id, event) :: rest)%list st0
        = (Raise (RuntimeError "LiveCheck app missing origin argument"), st)).
Proof.
  split.
  - intros pre rest id test st0 st Hpre Hp Ho.
    rewrite execute_tests_app, Hpre. cbn [_execute_tests].
    unfold _prepare_case_name. rewrite Hp.
    destruct (conf_origin (fst st)) as [[|ch o]|]; try discriminate;
      reflexivity.
  - intros pre rest id event st0 st Hpre Hp Ho.
    rewrite populate_signals_app, Hpre. cbn [_populate_signals].
    unfold _prepare_case_name. rewrite Hp.
    destruct (conf_origin (fst st)) as [[|ch o]|]; try discriminate;
      reflexivity.
Qed.

(** X19. A case registered by the decorator is the one the loops hand a
    message to when the message names it as it was declared: the
    decorator and the loops resolve the name the same way.  The test loop
    then goes on as its [try] prescribes, the bus loop goes on only when
    [resolve_signal] returns. *)
Theorem decorated_case_is_dispatched (name : option string)
    (options : CaseOptions) (cls : PyClass) (rt : runtime) (c : Case)
    (rt' : runtime) (w : W) :
  case name options cls rt = (Ok c, rt') ->
  (forall (id : string) (test : TestExecution)
          (rest : list (string * TestExecution)),
     test_case_name test = str_or name (cls_qualname cls) ->
     _execute_tests execute ((id, test) :: rest) (rt_app rt', w)
     = match execute c (set_test_case_name (case_name c) test)
               (rt_app rt', w) with
       | (Ok _, st') => _execute_tests execute rest st'
       | (Raise e, st') =>
           if is_LiveCheckError e
           then _execute_tests execute rest st'
           else (Raise e, st')
       end)
  /\ (forall (id : string) (event : SignalEvent)
             (rest : list (string * SignalEvent)),
        event_case_name event = str_or name (cls_qualname cls) ->
        _populate_signals resolve_signal ((id, event) :: rest) (rt_app rt', w)
        = match resolve_signal c id
                  (set_event_case_name (case_name c) event)
                  (rt_app rt', w) with
          | (Ok _, st') => _populate_signals resolve_signal rest st'
          | (Raise e, st') => (Raise e, st')
          end).
Proof.
  unfold case.
  destruct (_prepare_case_name _ _) as [resolved|e] eqn:Hr; [|discriminate].
  cbn. intros [= <- <-].
  split.
  - intros id test rest Hname.
    cbn [_execute_tests fst conf_origin rt_app with_cases case_name].
    rewrite Hname, Hr. cbn [test_case_name set_test_case_name].
    unfold with_cases at 1. cbn [cases].
    rewrite lookup_insert_eq. reflexivity.
  - intros id event rest Hname.
    cbn [_populate_signals fst conf_origin rt_app with_cases case_name].
    rewrite Hname, Hr. cbn [event_case_name set_event_case_name].
    unfold with_cases at 1. cbn [cases].
    rewrite lookup_insert_eq. reflexivity.
Qed.
End AgentLoopErrors.

Lemma execute_tests_other_error_stops_witness :
  _execute_tests crashing_execute
    [("B", request "B" "orders"); ("A", request "A" "orders");
     ("C", request "C" "orders")] (orders_app, [])
  = (Raise (OtherException "ValueError"), (orders_app, ["B"; "A"])).
Proof.
  apply (execute_tests_other_error_stops crashing_execute
           [("B", request "B" "orders")] [("C", request "C" "orders")]
           "A" (request "A" "orders") (orders_app, [])
           (orders_app, ["B"]) (orders_app, ["B"; "A"])
           "orders" orders_v1 (OtherException "ValueError")).
  - vm_compute. reflexivity.
  - reflexivity.
  - vm_compute. reflexivity.
  - reflexivity.
  - reflexivity.
Defined.

Lemma populate_signals_any_error_stops_witness :
  _populate_signals failing_resolve_signal
    [("B", persisted_event "B" "orders"); ("A", persisted_event "A" "orders");
     ("C", persisted_event "C" "orders")] (orders_app, [])
  = (Raise (LiveCheckError "no such signal"), (orders_app, ["B"; "A"])).
Proof.
  apply (populate_signals_any_error_stops failing_resolve_signal
           [("B", persisted_event "B" "orders")]
           [("C", persisted_event "C" "orders")]
           "A" (persisted_event "A" "orders") (orders_app, [])
           (orders_app, ["B"]) (orders_app, ["B"; "A"])
           "orders" orders_v1 (LiveCheckError "no such signal")).
  - vm_compute. reflexivity.
  - reflexivity.
  - vm_compute. reflexivity.
  - reflexivity.
Defined.

Lemma placeholder_without_origin_stops_loops_witness :
  _execute_tests logging_execute
    [("X", request "X" "__main__.Orders"); ("C", request "C" "orders")]
    (no_origin_app, [])
  = (Raise (RuntimeError "LiveCheck app missing origin argument"),
     (no_origin_app, []))
  /\ _populate_signals logging_resolve_signal
       [("X", persisted_event "X" "__main__.Orders")] (no_origin_app, [])
     = (Raise (RuntimeError "LiveCheck app missing origin argument"),
        (no_origin_app, [])).
Proof.
  pose proof (placeholder_without_origin_stops_loops logging_execute
                logging_resolve_signal) as [Ht Hs].
  split.
  - apply (Ht [] [("C", request "C" "orders")] "X"
              (request "X" "__main__.Orders") (no_origin_app, [])
              (no_origin_app, [])); reflexivity.
  - apply (Hs [] [] "X" (persisted_event "X" "__main__.Orders")
              (no_origin_app, []) (no_origin_app, [])); reflexivity.
Defined.

Lemma decorated_case_is_dispatched_witness :
  fst (_execute_tests logging_execute
         [("B", request "B" "__main__.Orders")]
         (rt_app (snd (case None default_options plain_cls plain_rt)), []))
  = Ok tt.
Proof.
  rewrite (proj1 (decorated_case_is_dispatched logging_execute
                    logging_resolve_signal None default_options plain_cls
                    plain_rt
                    (match fst (case None default_options plain_cls plain_rt)
                     with Ok c => c | Raise _ => orders_v1 end)
                    (snd (case None default_options plain_cls plain_rt))
                    [] eq_refl)
             "B" (request "B" "__main__.Orders") [] eq_refl).
  reflexivity.
Defined.

Lemma execute_tests_survives_failures_witness :
  _execute_tests logging_execute
    [("A", request "A" "orders"); ("B", request "B" "orders");
     ("A", request "A" "orders")] (orders_app, [])
  = (Ok tt, (orders_app, ["A"; "B"; "A"])).
Proof.
  refine (eq_trans (execute_tests_survives_failures logging_execute _ _
                      _ _ _) _).
  - intros c t s. unfold logging_execute.
    destruct (String.eqb (test_id t) "A"); reflexivity.
  - intros c t s e. unfold logging_execute.
    destruct (String.eqb (test_id t) "A"); cbn; [|discriminate].
    intros [= <-]. reflexivity.
  - repeat constructor; exists "orders", orders_v1;
      (split; [reflexivity | vm_compute; reflexivity]).
  - vm_compute. reflexivity.
Defined.

(** ** Stream sensor *)

Lemma sensor_in_out {H : Type} (from_headers : H -> option TestExecution)
    (h : H) (st : Stream * list TestExecution) :
  stream_current_test (fst st) = None ->
  on_stream_event_out (on_stream_event_in from_headers h st) = st.
Proof.
  destruct st as [[cur] stack]. cbn. intros ->.
  unfold on_stream_event_in, on_stream_event_out.
  destruct (from_headers h); reflexivity.
Qed.

(** X21. On a stream that has no test marked, the entry hook followed by
    the exit hook leaves the stream and the context stack as they were,
    whether or not the event carried a test; so does any number of events
    handled one after another. *)
Theorem sensor_restores_context {H : Type}
    (from_headers : H -> option TestExecution) (events : list H)
    (st : Stream * list TestExecution) :
  stream_current_test (fst st) = None ->
  fold_left
    (fun s h => on_stream_event_out (on_stream_event_in from_headers h s))
    events st
  = st.
Proof.
  intros Hst. induction events as [|h events IH]; [reflexivity|].
  cbn [fold_left]. rewrite sensor_in_out by exact Hst. exact IH.
Qed.

Lemma sensor_restores_context_witness :
  fold_left
    (fun s h => on_stream_event_out
                  (on_stream_event_in sample_from_headers h s))
    [[("LiveCheck-Test-Id", "t1")]; []; [("LiveCheck-Test-Id", "t2")]]
    ({| stream_current_test := None |}, [sample_test])
  = ({| stream_current_test := None |}, [sample_test]).
Proof. apply sensor_restores_context. reflexivity. Defined.

(** X22. Between the two hooks of an event that carries a test, that
    test is the current one, whatever was on the stack, and a message
    produced then gets that test's headers. *)
Theorem sensor_makes_event_test_current {H V B : Type}
    (from_headers : H -> option TestExecution)
    (as_headers : TestExecution -> list (string * V))
    (want_bytes : V -> B)
    (h : H) (st : Stream * list TestExecution) (test : TestExecution)
    (hs : list (string * B)) :
  from_headers h = Some test ->
  let st1 := on_stream_event_in from_headers h st in
  current_test (snd st1) = Some test
  /\ stream_current_test (fst st1) = Some test
  /\ on_produce_attach_test_headers as_headers want_bytes (snd st1)
       (Some hs)
     = Ok (Some (hs ++ map (fun kv => (fst kv, want_bytes (snd kv)))
                           (as_headers test))%list).
Proof.
  intros Hh. unfold on_stream_event_in. rewrite Hh. cbn.
  repeat split.
Qed.

Lemma sensor_makes_event_test_current_witness :
  on_produce_attach_test_headers sample_as_headers list_byte_of_string
    (snd (on_stream_event_in sample_from_headers
            [("LiveCheck-Test-Id", "t7")]
            ({| stream_current_test := None |}, [sample_test])))
    (Some [])
  = Ok (Some [("LiveCheck-Test-Id", list_byte_of_string "t7");
              ("LiveCheck-Test-Case-Name", list_byte_of_string "orders")]).
Proof.
  exact (proj2 (proj2 (sensor_makes_event_test_current sample_from_headers
                         sample_as_headers list_byte_of_string
                         [("LiveCheck-Test-Id", "t7")]
                         ({| stream_current_test := None |}, [sample_test])
                         (request "t7" "orders") [] eq_refl))).
Defined.

(** X23. The hooks do not nest: when the entry hook runs twice for an
    event that carries a test before the exit hook runs twice (two sensors
    on one stream), the second exit finds no test marked and pops nothing,
    and the test stays on the context stack. *)
Theorem sensor_hooks_do_not_nest {H : Type}
    (from_headers : H -> option TestExecution) (h : H)
    (st : Stream * list TestExecution) (test : TestExecution) :
  from_headers h = Some test ->
  on_stream_event_out
    (on_stream_event_out
       (on_stream_event_in from_headers h
          (on_stream_event_in from_headers h st)))
  = ({| stream_current_test := None |}, test :: snd st).
Proof.
  intros Hh. unfold on_stream_event_in. rewrite Hh. reflexivity.
Qed.

Lemma sensor_hooks_do_not_nest_witness :
  on_stream_event_out
    (on_stream_event_out
       (on_stream_event_in sample_from_headers [("LiveCheck-Test-Id", "t7")]
          (on_stream_event_in sample_from_headers
             [("LiveCheck-Test-Id", "t7")]
             ({| stream_current_test := None |}, []))))
  = ({| stream_current_test := None |}, [request "t7" "orders"]).
Proof.
  apply (sensor_hooks_do_not_nest sample_from_headers). reflexivity.
Defined.

(** ** Building a LiveCheck application *)

Section ForApp.
Variable web_port : Z.
Variables ttn btn rtn : option string.
Variables bc tc : option Z.
Variable sr : option bool.

Lemma named_args_lookup (k : string) :
  (k ∈ for_app_named ->
   is_Some (for_app_named_args web_port ttn btn rtn bc tc sr !! k))
  /\ (k ∉ for_app_named ->
      for_app_named_args web_port ttn btn rtn bc tc sr !! k = None).
Proof.
  unfold for_app_named_args, for_app_named. split.
  - intros Hk. repeat (apply elem_of_cons in Hk as [->|Hk]);
      [| | | | | | |inversion Hk];
      repeat (rewrite lookup_insert_ne by discriminate);
      rewrite lookup_insert_eq; eauto.
  - intros Hk.
    repeat (apply not_elem_of_cons in Hk as [? Hk]).
    repeat (rewrite lookup_insert_ne by congruence).
    apply lookup_empty.
Qed.

(** X24. In the options [for_app] builds, each of its seven named
    parameters shadows what the application was created with, also when
    the parameter is [None]; [**kwargs] shadow it too; any other option of
    the application is inherited. *)
Theorem for_app_options_precedence (passed kwargs : gmap string pyval)
    (k : string) :
  (forall k', k' ∈ for_app_named -> kwargs !! k' = None) ->
  let options :=
    for_app_options passed web_port ttn btn rtn bc tc sr kwargs in
  (k ∈ for_app_named ->
   options !! k = for_app_named_args web_port ttn btn rtn bc tc sr !! k
   /\ is_Some (options !! k))
  /\ (k ∉ for_app_named ->
      options !! k = match kwargs !! k with
                     | Some v => Some v
                     | None => passed !! k
                     end).
Proof.
  intros Hkw options. subst options. unfold for_app_options.
  destruct (named_args_lookup k) as [Hin Hout].
  rewrite !lookup_union. split.
  - intros Hk. rewrite (Hkw k Hk). destruct (Hin Hk) as [v ->].
    destruct (passed !! k); cbn; eauto.
  - intros Hk. rewrite (Hout Hk).
    destruct (kwargs !! k), (passed !! k); reflexivity.
Qed.

(** X25. The application [for_app] returns has the id [prefix + app_id]
    and an empty registry; its topic names, concurrency limits and report
    switch are the arguments of [for_app], or the class defaults where an
    argument is [None], never the settings of the application it is made
    for; its origin is the one given in [**kwargs], or else that
    application's.  The application it was made for gets one more
    middleware, one more sensor, and the new application as
    [livecheck]. *)
Theorem for_app_result (app : App) (prefix : string)
    (kwargs : gmap string pyval) :
  (forall k, k ∈ for_app_named -> kwargs !! k = None) ->
  let r := for_app app prefix web_port ttn btn rtn bc tc sr kwargs in
  let lc := snd (fst r) in
  fst (fst r) = prefix ++ fst (app_default_options app)
  /\ test_topic_name lc = override ttn "livecheck"
  /\ bus_topic_name lc = override btn "livecheck-bus"
  /\ report_topic_name lc = override rtn "livecheck-report"
  /\ bus_concurrency lc = override bc 30%Z
  /\ test_concurrency lc = override tc 100%Z
  /\ send_reports lc = override sr true
  /\ conf_origin lc
     = as_str (match kwargs !! "origin" with
               | Some v => Some v
               | None => snd (app_default_options app) !! "origin"
               end)
  /\ cases lc = ∅
  /\ app_livecheck (snd r) = Some lc
  /\ app_middlewares (snd r)
     = (app_middlewares app ++ [LiveCheckMiddleware])%list
  /\ app_livecheck_sensors (snd r) = S (app_livecheck_sensors app).
Proof.
  intros Hkw r lc. subst lc r. unfold for_app.
  destruct (app_default_options app) as [app_id passed] eqn:Hopt.
  cbn [fst snd].
  assert (forall k, k ∈ for_app_named ->
            for_app_options passed web_port ttn btn rtn bc tc sr kwargs !! k
            = for_app_named_args web_port ttn btn rtn bc tc sr !! k) as Hn.
  { intros k Hk. unfold for_app_options. rewrite !lookup_union, (Hkw k Hk).
    destruct (proj1 (named_args_lookup k) Hk) as [v ->].
    destruct (passed !! k); reflexivity. }
  assert (for_app_options passed web_port ttn btn rtn bc tc sr kwargs
            !! "origin"
          = match kwargs !! "origin" with
            | Some v => Some v
            | None => passed !! "origin"
            end) as Ho.
  { unfold for_app_options. rewrite !lookup_union.
    rewrite (proj2 (named_args_lookup "origin")).
    - destruct (kwargs !! "origin"), (passed !! "origin"); reflexivity.
    - unfold for_app_named. intros Hk.
      repeat (apply elem_of_cons in Hk as [?|Hk]; [discriminate|]).
      inversion Hk. }
  rewrite Ho.
  rewrite !Hn
    by (unfold for_app_named; apply list_elem_of_In; cbn; tauto).
  unfold for_app_named_args, __init__, _contribute_to_app. cbn.
  repeat (rewrite lookup_insert_ne by discriminate).
  rewrite !lookup_insert_eq.
  repeat (rewrite lookup_insert_ne by discriminate).
  repeat (first [rewrite lookup_insert_eq
                | rewrite lookup_insert_ne by discriminate]).
  destruct ttn, btn, rtn, bc, tc, sr; repeat split.
Qed.
End ForApp.

Lemma for_app_options_precedence_witness :
  for_app_options (snd (app_default_options parent_app)) 9999
    None None None None None None ∅ !! "test_topic_name" = Some PNone
  /\ for_app_options (snd (app_default_options parent_app)) 9999
       None None None None None None ∅ !! "origin" = Some (PStr "pkg.mod").
Proof.
  split.
  - destruct (proj1 (for_app_options_precedence 9999 None None None None None
                       None (snd (app_default_options parent_app)) ∅
                       "test_topic_name" (fun k _ => lookup_empty k))) as [E _].
    + apply list_elem_of_In. cbn. tauto.
    + rewrite E. vm_compute. reflexivity.
  - rewrite (proj2 (for_app_options_precedence 9999 None None None None None
                      None (snd (app_default_options parent_app)) ∅
                      "origin" (fun k _ => lookup_empty k))).
    + vm_compute. reflexivity.
    + unfold for_app_named. intros Hk.
      repeat (apply elem_of_cons in Hk as [?|Hk]; [discriminate|]).
      inversion Hk.
Defined.

Lemma for_app_result_witness :
  fst (fst (for_app parent_app "livecheck-" 9999 None None None None None
              None ∅)) = "livecheck-shop"
  /\ test_topic_name
       (snd (fst (for_app parent_app "livecheck-" 9999 None None None None
                    None None ∅))) = "livecheck"
  /\ conf_origin
       (snd (fst (for_app parent_app "livecheck-" 9999 None None None None
                    None None ∅))) = Some "pkg.mod".
Proof.
  destruct (for_app_result 9999 None None None None None None parent_app
              "livecheck-" ∅ (fun k _ => lookup_empty k))
    as (Hid & Htopic & _ & _ & _ & _ & _ & Horigin & _).
  split; [exact Hid|]. split; [exact Htopic|].
  rewrite Horigin. vm_compute. reflexivity.
Defined.
